(** * dbt_mastery pipeline: file intake, incremental load, archive

    A shallow embedding of [dags/utils/file_helpers.py],
    [dags/config/dbt_config.py] and [dags/dbt_mastery_pipeline.py].

    Python [str] values are lists of characters.  The operating system, the
    pandas parser, the SQL store, the clock and the shell are the world the
    functions run in: the filesystem is an ordered table of paths, the store
    a table of rows with a transaction snapshot, and what the libraries
    decide on their own (which names a glob pattern matches, how a file
    parses, whether the store takes a batch, what a shell command does) is a
    variable of the section. *)

From Stdlib Require Import List String Ascii Bool Arith NArith ZArith Lia.
Import ListNotations.

Set Warnings "-abstract-large-number".

Local Open Scope string_scope.
Local Open Scope nat_scope.
Local Open Scope list_scope.

(* ================================================================== *)
(** ** Python strings *)

Definition str := list ascii.

Coercion list_ascii_of_string : string >-> list.

Definition str_eqb (a b : str) : bool :=
  if list_eq_dec ascii_dec a b then true else false.

Definition is_char (c d : ascii) : bool := Ascii.eqb c d.

(** [p.rfind(c)]: the index of the last [c] in [p], [None] for Python's -1. *)
Fixpoint rfind (c : ascii) (p : str) : option nat :=
  match p with
  | [] => None
  | x :: q =>
      match rfind c q with
      | Some i => Some (S i)
      | None => if is_char x c then Some 0 else None
      end
  end.

(** [p.endswith(c)] for a one-character [c]. *)
Definition endswith (p : str) (c : ascii) : bool :=
  match rev p with
  | x :: _ => is_char x c
  | [] => false
  end.

Definition startswith (p : str) (c : ascii) : bool :=
  match p with
  | x :: _ => is_char x c
  | [] => false
  end.

(* ================================================================== *)
(** ** posixpath *)

Definition sep : ascii := "/"%char.
Definition extsep : ascii := "."%char.

(** [os.path.join(a, b)]. *)
Definition path_join (a b : str) : str :=
  if startswith b sep then b
  else if (match a with [] => true | _ => false end) || endswith a sep
       then a ++ b
       else a ++ sep :: b.

(** [os.path.basename(p)]: [p[p.rfind('/') + 1:]]. *)
Definition basename (p : str) : str :=
  match rfind sep p with
  | Some i => skipn (S i) p
  | None => p
  end.

(** [os.path.dirname(p)]: the head up to the last separator, trailing
    separators stripped unless the head is separators only. *)
Fixpoint rstrip_sep (r : str) : str :=
  match r with
  | x :: q => if is_char x sep then rstrip_sep q else r
  | [] => []
  end.

Definition dirname (p : str) : str :=
  match rfind sep p with
  | Some i =>
      let head := firstn (S i) p in
      if forallb (fun x => is_char x sep) head then head
      else rev (rstrip_sep (rev head))
  | None => []
  end.

(** The loop of [genericpath._splitext] that skips the leading dots of the
    file name: it answers whether a character other than the dot stands
    before index [dotIndex]. *)
Fixpoint nondot_before (dotIndex : nat) (p : str) : bool :=
  match dotIndex, p with
  | S k, x :: q => if is_char x extsep then nondot_before k q else true
  | _, _ => false
  end.

(** [os.path.splitext(p)] on a name without separator ([sepIndex] is -1,
    the loop starts at index 0). *)
Definition splitext (p : str) : str * str :=
  match rfind extsep p with
  | Some dotIndex =>
      if nondot_before dotIndex p
      then (firstn dotIndex p, skipn dotIndex p)
      else (p, [])
  | None => (p, [])
  end.

(* ================================================================== *)
(** ** Exceptions and results *)

(** The exceptions the pipeline raises itself or lets through from the
    libraries it calls. *)
Inductive Exc : Type :=
| FileNotFoundError (msg : str)   (* builtin; also what [os.stat] raises *)
| ValueError (msg : str)          (* builtin *)
| FileExistsError (msg : str)     (* [os.makedirs] on a regular file *)
| ShutilError (msg : str)         (* [shutil.Error] *)
| ParserError (msg : str)         (* anything [pd.read_csv] raises *)
| OperationalError (msg : str)    (* the store cannot be reached *)
| DatabaseError (msg : str)       (* the store refuses a batch *)
| IsADirectoryError (msg : str)   (* [open] on a directory *)
| BashError (msg : str).          (* non-zero exit of a [BashOperator] *)

Inductive Result (A : Type) : Type :=
| Ok (a : A)
| Raise (e : Exc).
Arguments Ok {A} a.
Arguments Raise {A} e.

Definition rbind {A B} (r : Result A) (k : A -> Result B) : Result B :=
  match r with
  | Ok a => k a
  | Raise e => Raise e
  end.

(* ================================================================== *)
(** ** The filesystem *)

(** What [os.stat] finds under a path.  A regular file carries its bytes;
    its size is their number.  Times are readings of the system clock; only
    their order matters. *)
Inductive Node : Type :=
| File (st_mtime : Z) (bytes : str)
| Dir (st_mtime : Z) (st_size : nat).

(** What a directory lists under a name: an entry that [os.stat] reaches,
    which is the node itself or a symbolic link that resolves to it, or a
    symbolic link whose target does not exist.  A directory scan lists both
    kinds; [os.stat] fails on the second. *)
Inductive Entry : Type :=
| Reached (n : Node)
| Dangling.

(** A snapshot: the entries in the order in which the system lists them,
    each under its full path. *)
Definition FS := list (str * Entry).

(** [os.lstat]: the entry a path is listed with. *)
Fixpoint entry_of (fs : FS) (p : str) : option Entry :=
  match fs with
  | [] => None
  | (q, e) :: rest => if str_eqb q p then Some e else entry_of rest p
  end.


(** [os.stat]: the node a path leads to.  It fails on a path that is not
    listed and on a dangling link alike. *)
Definition lookup (fs : FS) (p : str) : option Node :=
  match entry_of fs p with
  | Some (Reached n) => Some n
  | Some Dangling | None => None
  end.

Definition remove (fs : FS) (p : str) : FS :=
  filter (fun e => negb (str_eqb (fst e) p)) fs.

Definition st_mtime_of (n : Node) : Z :=
  match n with File m _ => m | Dir m _ => m end.

Definition st_size_of (n : Node) : nat :=
  match n with File _ b => List.length b | Dir _ s => s end.

(** [os.path.exists] *)
Definition path_exists (fs : FS) (p : str) : bool :=
  match lookup fs p with Some _ => true | None => false end.

(** [os.path.isdir] *)
Definition path_isdir (fs : FS) (p : str) : bool :=
  match lookup fs p with Some (Dir _ _) => true | _ => false end.

Definition no_such_file (p : str) : Exc :=
  FileNotFoundError ("[Errno 2] No such file or directory: '" ++ p ++ "'").

(** [os.path.getmtime] *)
Definition getmtime (fs : FS) (p : str) : Result Z :=
  match lookup fs p with
  | Some n => Ok (st_mtime_of n)
  | None => Raise (no_such_file p)
  end.

(** [os.path.getsize] *)
Definition getsize (fs : FS) (p : str) : Result nat :=
  match lookup fs p with
  | Some n => Ok (st_size_of n)
  | None => Raise (no_such_file p)
  end.

(** The entry [p] lies directly in directory [d]: joining [d] with the last
    component of [p] gives [p] back. *)
Definition in_dir (d p : str) : bool :=
  match basename p with
  | [] => false
  | b => str_eqb (path_join d b) p
  end.

(** Python's [max(x :: l, key=key)]: the keys are computed in order, an
    element replaces the best so far only when its key is strictly greater,
    and an exception in [key] ends the call. *)
Fixpoint max_from {A} (key : A -> Result Z) (best : A) (kbest : Z)
    (l : list A) : Result A :=
  match l with
  | [] => Ok best
  | x :: l' =>
      rbind (key x) (fun kx =>
        if (kx >? kbest)%Z then max_from key x kx l'
        else max_from key best kbest l')
  end.

Definition py_max {A} (key : A -> Result Z) (x : A) (l : list A) : Result A :=
  rbind (key x) (fun kx => max_from key x kx l).

(** [glob.has_magic]: one of the wildcard characters stands in [s]. *)
Definition has_magic (s : str) : bool :=
  existsb (fun c => is_char c "*" || is_char c "?" || is_char c "[") s.

Section Locator.

(** [glob_match pattern name]: whether [fnmatch], with glob's rule for
    hidden names, takes the directory entry [name] for [pattern]. *)
Variable glob_match : str -> str -> bool.

(** One component of a pathname against a name: [fnmatch] when the
    component holds a wildcard ([glob._glob1]), the name itself otherwise
    ([glob._glob0]). *)
Definition glob_name (pattern name : str) : bool :=
  if has_magic pattern then glob_match pattern name else str_eqb pattern name.

(** Whether [glob.glob(pathname)] comes to the listed path [p].  A
    pathname without wildcard stands for itself.  Otherwise the last
    component is matched against the name of [p], and the directory of [p]
    is the directory part of the pathname or, when that part holds a
    wildcard too, one of the directories glob expands it to.  A pathname
    that ends in a separator asks for directories, written with the
    separator at the end; no entry of a snapshot is written so, and none
    is yielded.  The directory part is shorter than the pathname, so
    [fuel] above the length of the pathname is never used up. *)
Fixpoint glob_yields (fuel : nat) (pathname p : str) : bool :=
  match fuel with
  | 0 => false
  | S fuel' =>
      if has_magic pathname then
        glob_name (basename pathname) (basename p)
        && (if has_magic (dirname pathname)
            then in_dir (dirname p) p
                 && glob_yields fuel' (dirname pathname) (dirname p)
            else in_dir (dirname pathname) p)
      else
        match basename pathname with
        | [] => false
        | _ :: _ => str_eqb pathname p
        end
  end.

(** [glob.glob(pathname)]: the listed paths it comes to, in listing order,
    dangling links among them. *)
Definition glob_glob (fs : FS) (pathname : str) : list str :=
  filter (glob_yields (S (List.length pathname)) pathname) (map fst fs).

(** file_helpers.py, [find_latest_csv] *)
Definition find_latest_csv (fs : FS) (directory pattern : str)
  : Result (option str) :=
  let files := glob_glob fs (path_join directory pattern) in
  match files with
  | [] => Ok None
  | x :: l =>
      rbind (py_max (getmtime fs) x l) (fun latest_file =>
      Ok (Some latest_file))
  end.

(** file_helpers.py, [check_file_exists] *)
Definition check_file_exists (fs : FS) (filepath : str) : Result bool :=
  if negb (path_exists fs filepath) then Ok false
  else
    rbind (getsize fs filepath) (fun size =>
    if Nat.eqb size 0 then Ok false
    else Ok true).

End Locator.

(* ================================================================== *)
(** ** The clock *)

Record datetime : Type := mkdatetime {
  year : N; month : N; day : N;
  hour : N; minute : N; second : N;
  microsecond : N
}.

(** The ranges of the fields of a Python [datetime]. *)
Definition datetime_ok (d : datetime) : bool :=
  ((1 <=? year d) && (year d <=? 9999) &&
   (1 <=? month d) && (month d <=? 12) &&
   (1 <=? day d) && (day d <=? 31) &&
   (hour d <? 24) && (minute d <? 60) && (second d <? 60) &&
   (microsecond d <? 1000000))%N.

Definition digit (n : N) : ascii := ascii_of_N (48 + n).

(** Zero-padded decimal fields of [strftime]: two digits for
    [%m %d %H %M %S], four for [%Y]. *)
Definition pad2 (n : N) : str := [digit (n / 10); digit (n mod 10)]%N.
Definition pad4 (n : N) : str := (pad2 (n / 100) ++ pad2 (n mod 100))%N.

(** [d.strftime('%Y%m%d_%H%M%S')] *)
Definition strftime (d : datetime) : str :=
  pad4 (year d) ++ pad2 (month d) ++ pad2 (day d) ++ "_"
  ++ pad2 (hour d) ++ pad2 (minute d) ++ pad2 (second d).

(* ================================================================== *)
(** ** The store *)

(** A row of a frame: its fields as read. *)
Definition Row := list str.
Definition DataFrame := list Row.

Definition Tables := list (str * list Row).

Fixpoint table_rows (t : Tables) (name : str) : list Row :=
  match t with
  | [] => []
  | (n, rows) :: rest => if str_eqb n name then rows else table_rows rest name
  end.

Fixpoint has_table (t : Tables) (name : str) : bool :=
  match t with
  | [] => false
  | (n, _) :: rest => str_eqb n name || has_table rest name
  end.

Fixpoint append_rows (t : Tables) (name : str) (batch : list Row) : Tables :=
  match t with
  | [] => []
  | (n, rows) :: rest =>
      if str_eqb n name then (n, rows ++ batch) :: rest
      else (n, rows) :: append_rows rest name batch
  end.

(** The store as one connection sees it: the tables with the rows written
    so far, the state to return to on ROLLBACK while a transaction is open,
    whether the server answers, and the sizes of the INSERT batches it has
    executed, oldest first. *)
Record Store : Type := mkStore {
  tables : Tables;
  undo : option Tables;
  reachable : bool;
  executed : list nat
}.

Definition row_count (s : Store) (name : str) : nat :=
  List.length (table_rows (tables s) name).

(* ================================================================== *)
(** ** XCom and the world *)

Inductive XVal : Type :=
| XNone
| XStr (s : str)
| XInt (n : nat).

(** Python truthiness of a pulled value. *)
Definition truthy (v : XVal) : bool :=
  match v with
  | XNone => false
  | XStr [] => false
  | XStr _ => true
  | XInt 0 => false
  | XInt _ => true
  end.

(** Entries of one run, keyed by task id and key. *)
Definition XCom := list (str * str * XVal).

Fixpoint xcom_get (x : XCom) (task_id key : str) : XVal :=
  match x with
  | [] => XNone
  | (t, k, v) :: rest =>
      if str_eqb t task_id && str_eqb k key then v else xcom_get rest task_id key
  end.

(** [time] is the system clock in the unit of [st_mtime]; [now] is the
    wall clock as [datetime.now()] reads it. *)
Record World : Type := mkWorld {
  fs : FS;
  store : Store;
  xcom : XCom;
  time : Z;
  now : datetime
}.

Definition set_fs (w : World) (f : FS) : World :=
  mkWorld f (store w) (xcom w) (time w) (now w).
Definition set_store (w : World) (s : Store) : World :=
  mkWorld (fs w) s (xcom w) (time w) (now w).
Definition set_xcom (w : World) (x : XCom) : World :=
  mkWorld (fs w) (store w) x (time w) (now w).

(** A callable: it runs in a world, returns or raises, and leaves a world.
    The [print] calls write to the task log, which is not part of the
    world. *)
Definition M (A : Type) : Type := World -> Result A * World.

Definition ret {A} (a : A) : M A := fun w => (Ok a, w).
Definition raise {A} (e : Exc) : M A := fun w => (Raise e, w).
Definition bind {A B} (m : M A) (k : A -> M B) : M B :=
  fun w => match m w with
           | (Ok a, w') => k a w'
           | (Raise e, w') => (Raise e, w')
           end.

Notation "x <- c ;; k" := (bind c (fun x => k))
  (at level 61, c at next level, right associativity).
Notation "c ;;; k" := (bind c (fun _ => k))
  (at level 61, right associativity).

(** A call that only reads the filesystem. *)
Definition read_fs {A} (f : FS -> Result A) : M A := fun w => (f (fs w), w).

Definition datetime_now : M datetime := fun w => (Ok (now w), w).

(** [context['ti'].xcom_push(key=..., value=...)] by the task [task_id]. *)
Definition xcom_push (task_id key : str) (value : XVal) : M unit :=
  fun w => (Ok tt, set_xcom w ((task_id, key, value) :: xcom w)).

(** [context['ti'].xcom_pull(task_ids=..., key=...)] *)
Definition xcom_pull (task_ids key : str) : M XVal :=
  fun w => (Ok (xcom_get (xcom w) task_ids key), w).

(* ================================================================== *)
(** ** os and shutil *)

(** [os.makedirs(d, exist_ok=True)]: nothing when [d] is a directory, an
    error when it is a regular file or a dangling link, a new entry
    otherwise.  The call also creates the directories above [d] that are
    missing.  They are not entered here: a snapshot need not list the
    directories above its entries, and the statements about a move leave
    the paths above the destination directory open. *)
Definition makedirs (d : str) : M unit :=
  fun w =>
    match entry_of (fs w) d with
    | Some (Reached (Dir _ _)) => (Ok tt, w)
    | Some (Reached (File _ _)) | Some Dangling =>
        (Raise (FileExistsError ("[Errno 17] File exists: '" ++ d ++ "'")), w)
    | None => (Ok tt, set_fs w (fs w ++ [(d, Reached (Dir (time w) 4096))]))
    end.

Fixpoint is_prefix (a p : str) : bool :=
  match a, p with
  | [], _ => true
  | x :: a', y :: p' => is_char x y && is_prefix a' p'
  | _ :: _, [] => false
  end.

(** Where an entry goes when [src] is renamed to [dst]. *)
Definition repath (src dst p : str) : str :=
  if str_eqb p src then dst
  else if is_prefix (src ++ [sep]) p then dst ++ skipn (List.length src) p
  else p.

(** [os.rename(src, dst)] where [dst] is absent or not a directory: a
    file, or a link as such, replaces [dst]; a directory takes the entries
    below it along. *)
Definition rename (f : FS) (src dst : str) : FS :=
  match entry_of f src with
  | Some (Reached (Dir _ _)) =>
      map (fun e => (repath src dst (fst e), snd e)) (remove f dst)
  | Some e => remove (remove f src) dst ++ [(dst, e)]
  | None => f
  end.

(** [shutil.move(src, dst)]; its return value is not used. *)
Definition shutil_move (src dst : str) : M unit :=
  fun w =>
    if path_isdir (fs w) dst then
      if str_eqb src dst then (Ok tt, w)
      else
        let real_dst := path_join dst (basename (rev (rstrip_sep (rev src)))) in
        if path_exists (fs w) real_dst then
          (Raise (ShutilError ("Destination path '" ++ real_dst
                               ++ "' already exists")), w)
        else (Ok tt, set_fs w (rename (fs w) src real_dst))
    else
      match entry_of (fs w) src, entry_of (fs w) dst with
      | None, _ => (Raise (no_such_file src), w)
      | Some (Reached (Dir _ _)), Some _ =>
          (Raise (FileExistsError ("[Errno 17] File exists: '" ++ dst ++ "'")), w)
      | Some _, _ => (Ok tt, set_fs w (rename (fs w) src dst))
      end.

(** file_helpers.py, [move_file] *)
Definition move_file (source destination_dir : str) : M str :=
  fun w =>
    if negb (path_exists (fs w) source) then
      (Raise (FileNotFoundError ("Source file not found: " ++ source)), w)
    else
      (makedirs destination_dir ;;;
       let filename := basename source in
       dt <- datetime_now ;;
       let timestamp := strftime dt in
       let '(name, ext) := splitext filename in
       let new_filename := name ++ "_" ++ timestamp ++ ext in
       let destination := path_join destination_dir new_filename in
       shutil_move source destination ;;;
       ret destination) w.

(* ================================================================== *)
(** ** dbt_config.py *)

Record Config : Type := mkConfig {
  DBT_PROJECT_DIR : str;
  DBT_PROFILES_DIR : str;
  INCOMING_DATA_DIR : str;
  PROCESSED_DATA_DIR : str;
  ARCHIVE_DATA_DIR : str;
  MYSQL_CONN_ID : str;
  MYSQL_DATABASE : str;
  MYSQL_RAW_TABLE : str;
  CSV_FILE_PATTERN : str;
  ALERT_EMAIL : str
}.

Definition dbt_config : Config := {|
  DBT_PROJECT_DIR := "/Users/alexaustinchettiar/Downloads/dbt_mastery";
  DBT_PROFILES_DIR := "/Users/alexaustinchettiar/.dbt";
  INCOMING_DATA_DIR := "/Users/alexaustinchettiar/data_pipeline/incoming";
  PROCESSED_DATA_DIR := "/Users/alexaustinchettiar/data_pipeline/processed";
  ARCHIVE_DATA_DIR := "/Users/alexaustinchettiar/data_pipeline/archive";
  MYSQL_CONN_ID := "mysql_dbt_mastery";
  MYSQL_DATABASE := "dbt_mastery";
  MYSQL_RAW_TABLE := "raw_flights_data";
  CSV_FILE_PATTERN := "routes_*.csv";
  ALERT_EMAIL := "alex@example.com"
|}.

Definition dbt_command (c : Config) (args : str) : str :=
  "cd " ++ DBT_PROJECT_DIR c ++ " && dbt " ++ args.

Definition DBT_DEPS c := dbt_command c "deps".
Definition DBT_RUN_STAGING c := dbt_command c "run --select staging.*".
Definition DBT_TEST_STAGING c := dbt_command c "test --select staging.*".
Definition DBT_RUN_INTERMEDIATE c := dbt_command c "run --select intermediate.*".
Definition DBT_TEST_INTERMEDIATE c := dbt_command c "test --select intermediate.*".
Definition DBT_RUN_MARTS c := dbt_command c "run --select marts.*".
Definition DBT_TEST_MARTS c := dbt_command c "test --select marts.*".

(* ================================================================== *)
(** ** SQLAlchemy and pandas *)

(** [engine.begin()] entered: a connection is opened and a transaction
    started. *)
Definition engine_begin : M unit :=
  fun w =>
    let s := store w in
    if reachable s then
      (Ok tt, set_store w (mkStore (tables s) (Some (tables s)) true (executed s)))
    else (Raise (OperationalError "Can't connect to MySQL server"), w).

Definition commit : M unit :=
  fun w =>
    let s := store w in
    (Ok tt, set_store w (mkStore (tables s) None (reachable s) (executed s))).

Definition rollback : M unit :=
  fun w =>
    let s := store w in
    let t := match undo s with Some t0 => t0 | None => tables s end in
    (Ok tt, set_store w (mkStore t None (reachable s) (executed s))).

(** [with engine.begin() as conn: body]: commit when the body returns,
    roll back and re-raise when it raises. *)
Definition with_engine_begin {A} (body : M A) : M A :=
  fun w =>
    match engine_begin w with
    | (Raise e, w1) => (Raise e, w1)
    | (Ok _, w1) =>
        match body w1 with
        | (Ok a, w2) => (Ok a, snd (commit w2))
        | (Raise e, w2) => (Raise e, snd (rollback w2))
        end
    end.

(** CREATE TABLE when the table is missing.  The statement commits what is
    pending, so a later ROLLBACK returns to the state with the table. *)
Definition create_if_missing (name : str) : M unit :=
  fun w =>
    let s := store w in
    if has_table (tables s) name then (Ok tt, w)
    else
      let t := tables s ++ [(name, [])] in
      (Ok tt, set_store w (mkStore t (option_map (fun _ => t) (undo s))
                                   (reachable s) (executed s))).

(** [frame[start_i:end_i]] *)
Definition slice {A} (start_i end_i : nat) (l : list A) : list A :=
  firstn (end_i - start_i) (skipn start_i l).

(** The tables once [to_sql] has made sure that [name] is among them. *)
Definition with_table (t : Tables) (name : str) : Tables :=
  if has_table t name then t else t ++ [(name, [])].

Section Pipeline.

Variable glob_match : str -> str -> bool.

(** What [pd.read_csv] makes of the bytes of a file. *)
Variable read_csv : str -> Result DataFrame.

(** Whether the store refuses a batch, given the rows of the table. *)
Variable store_rejects : list Row -> list Row -> bool.

(** What a shell command does. *)
Variable run_bash : str -> M unit.

Variable cfg : Config.

(** One multi-row INSERT. *)
Definition exec_insert (name : str) (batch : list Row) : M unit :=
  fun w =>
    let s := store w in
    if store_rejects (table_rows (tables s) name) batch then
      (Raise (DatabaseError "INSERT failed"), w)
    else
      (Ok tt, set_store w (mkStore (append_rows (tables s) name batch)
                             (undo s) (reachable s)
                             (executed s ++ [List.length batch]))).

(** The loop of pandas' [SQLTable.insert] over [range(chunks)]. *)
Fixpoint insert_chunks (name : str) (frame : DataFrame) (chunksize : nat)
    (range : list nat) : M unit :=
  match range with
  | [] => ret tt
  | i :: range' =>
      let start_i := i * chunksize in
      let end_i := Nat.min ((i + 1) * chunksize) (List.length frame) in
      if end_i <=? start_i then ret tt
      else
        exec_insert name (slice start_i end_i frame) ;;;
        insert_chunks name frame chunksize range'
  end.

(** [frame.to_sql(name, conn, if_exists='append', index=False,
    chunksize=chunksize)] on a connection with an open transaction. *)
Definition to_sql (name : str) (frame : DataFrame) (chunksize : nat) : M unit :=
  create_if_missing name ;;;
  let nrows := List.length frame in
  if nrows =? 0 then ret tt
  else if chunksize =? 0 then
    raise (ValueError "chunksize argument should be non-zero")
  else
    let chunks := nrows / chunksize + 1 in
    insert_chunks name frame chunksize (seq 0 chunks).

(** [pd.read_csv(csv_file)] *)
Definition pd_read_csv (csv_file : XVal) : M DataFrame :=
  fun w =>
    match csv_file with
    | XStr p =>
        match lookup (fs w) p with
        | Some (File _ bytes) => (read_csv bytes, w)
        | Some (Dir _ _) =>
            (Raise (IsADirectoryError ("[Errno 21] Is a directory: '" ++ p ++ "'")), w)
        | None => (Raise (no_such_file p), w)
        end
    | _ => (Raise (ValueError "Invalid file path or buffer object type"), w)
    end.

(* ---------------------------------------------------------------- *)
(** *** dbt_mastery_pipeline.py: the callables *)

(** The context of a callable: the id of its task instance. *)
Record Context : Type := mkContext { ti_task_id : str }.

(** [check_for_new_csv], lines 72-77: the search. *)
Definition locate_candidate : M str :=
  csv_file <- read_fs (fun f =>
                find_latest_csv glob_match f (INCOMING_DATA_DIR cfg)
                                (CSV_FILE_PATTERN cfg)) ;;
  match csv_file with
  | None =>
      raise (FileNotFoundError
               ("No CSV files matching '" ++ CSV_FILE_PATTERN cfg
                ++ "' found in " ++ INCOMING_DATA_DIR cfg))
  | Some csv_file => ret csv_file
  end.

(** [check_for_new_csv], lines 79-89: the check of the candidate, the
    size read for the log line, and the hand-over. *)
Definition validate_candidate (context : Context) (csv_file : str) : M str :=
  ok <- read_fs (fun f => check_file_exists f csv_file) ;;
  if negb ok then
    raise (ValueError ("File exists but is empty: " ++ csv_file))
  else
    _size <- read_fs (fun f => getsize f csv_file) ;;
    xcom_push (ti_task_id context) "csv_file_path" (XStr csv_file) ;;;
    ret csv_file.

Definition check_for_new_csv (context : Context) : M XVal :=
  csv_file <- locate_candidate ;;
  csv_file <- validate_candidate context csv_file ;;
  ret (XStr csv_file).

Definition load_csv_to_mysql (context : Context) : M XVal :=
  csv_file <- xcom_pull "check_new_data" "csv_file_path" ;;
  df <- pd_read_csv csv_file ;;
  with_engine_begin (to_sql (MYSQL_RAW_TABLE cfg) df 10000) ;;;
  ret (XInt (List.length df)).

(** The key holds the path pushed by [check_for_new_csv] or nothing. *)
Definition archive_processed_csv (context : Context) : M XVal :=
  csv_file <- xcom_pull "check_new_data" "csv_file_path" ;;
  match csv_file with
  | XStr p =>
      fun w =>
        if truthy csv_file && path_exists (fs w) p then
          (new_path <- move_file p (PROCESSED_DATA_DIR cfg) ;;
           ret (XStr new_path)) w
        else (Ok XNone, w)
  | _ => ret XNone
  end.

(* ---------------------------------------------------------------- *)
(** *** Vocabulary of the statements about the search *)

(** Two searches one after the other, as a re-read does them. *)
Definition find_twice (directory pattern : str) : M (option str * option str) :=
  first <- read_fs (fun f => find_latest_csv glob_match f directory pattern) ;;
  again <- read_fs (fun f => find_latest_csv glob_match f directory pattern) ;;
  ret (first, again).

(** The search finds nothing, or what it finds has no bytes. *)
Definition no_usable_file (f : FS) : Prop :=
  find_latest_csv glob_match f (INCOMING_DATA_DIR cfg) (CSV_FILE_PATTERN cfg)
  = Ok None
  \/ exists p,
       find_latest_csv glob_match f (INCOMING_DATA_DIR cfg) (CSV_FILE_PATTERN cfg)
       = Ok (Some p)
       /\ getsize f p = Ok 0.

End Pipeline.

(* ================================================================== *)
(** ** The DAG and its run *)

Inductive Operator : Type :=
| PythonOperator (python_callable : Context -> M XVal)
| BashOperator (bash_command : str).

Record Task : Type := mkTask { task_id : str; operator : Operator }.

Inductive TaskState : Type := success | failed | upstream_failed.

Definition Edge := (str * str)%type.

(** The two sides of [>>]: a task, or a task group with the ids of its
    members. *)
Inductive Dep : Type :=
| T (id : str)
| G (members : list str).

Definition mem (x : str) (l : list str) : bool := existsb (str_eqb x) l.

(** The members of a group without upstream, respectively downstream, inside
    the group. *)
Definition roots (inner : list Edge) (d : Dep) : list str :=
  match d with
  | T id => [id]
  | G ms => filter (fun m => negb (mem m (map snd inner))) ms
  end.

Definition leaves (inner : list Edge) (d : Dep) : list str :=
  match d with
  | T id => [id]
  | G ms => filter (fun m => negb (mem m (map fst inner))) ms
  end.

(** [a >> b]: every leaf of [a] becomes upstream of every root of [b]. *)
Definition shift (inner : list Edge) (a b : Dep) : list Edge :=
  flat_map (fun x => map (fun y => (x, y)) (roots inner b)) (leaves inner a).

(** [d1 >> d2 >> ... >> dn] *)
Fixpoint chain (inner : list Edge) (ds : list Dep) : list Edge :=
  match ds with
  | a :: (b :: _) as rest => shift inner a b ++ chain inner rest
  | _ => []
  end.

Record DAG : Type := mkDAG {
  dag_tasks : list Task;
  dag_edges : list Edge;
  dag_retries : nat
}.

Definition States := list (str * TaskState).

Fixpoint state_of (st : States) (id : str) : option TaskState :=
  match st with
  | [] => None
  | (i, s) :: rest => if str_eqb i id then Some s else state_of rest id
  end.

Definition upstream (d : DAG) (id : str) : list str :=
  map fst (filter (fun e => str_eqb (snd e) id) (dag_edges d)).

Definition has_state (st : States) (id : str) : bool :=
  match state_of st id with Some _ => true | None => false end.

Definition succeeded (st : States) (id : str) : bool :=
  match state_of st id with Some success => true | _ => false end.

(** The first task without a state whose upstream tasks all have one. *)
Definition find_ready (d : DAG) (st : States) : option str :=
  match
    filter (fun id => negb (has_state st id)
                      && forallb (has_state st) (upstream d id))
           (map task_id (dag_tasks d))
  with
  | id :: _ => Some id
  | [] => None
  end.

Fixpoint operator_of (ts : list Task) (id : str) : option Operator :=
  match ts with
  | [] => None
  | t :: rest => if str_eqb (task_id t) id then Some (operator t)
                 else operator_of rest id
  end.

Section Run.

Variable glob_match : str -> str -> bool.
Variable read_csv : str -> Result DataFrame.
Variable store_rejects : list Row -> list Row -> bool.
Variable run_bash : str -> M unit.
Variable cfg : Config.

(** What the rest of the system does to the world while the scheduler
    waits: between two tasks and during a retry delay. *)
Variable elapse : World -> World.

(** One try of a task.  The value a callable returns is pushed under
    [return_value] unless it is [None]. *)
Definition execute (id : str) (op : Operator) : M unit :=
  match op with
  | PythonOperator python_callable =>
      v <- python_callable (mkContext id) ;;
      match v with
      | XNone => ret tt
      | _ => xcom_push id "return_value" v
      end
  | BashOperator bash_command => run_bash bash_command
  end.

(** A task with [retries] further tries after a failed one. *)
Fixpoint run_task (retries : nat) (id : str) (op : Operator) (w : World)
  : TaskState * World :=
  match execute id op w with
  | (Ok _, w') => (success, w')
  | (Raise _, w') =>
      match retries with
      | 0 => (failed, w')
      | S k => run_task k id op (elapse w')
      end
  end.

(** The scheduler: a ready task runs when all its upstream tasks
    succeeded (trigger rule [all_success]) and is marked
    [upstream_failed] otherwise. *)
Fixpoint schedule (fuel : nat) (d : DAG) (st : States) (w : World)
  : States * World :=
  match fuel with
  | 0 => (st, w)
  | S k =>
      match find_ready d st with
      | None => (st, w)
      | Some id =>
          if forallb (succeeded st) (upstream d id) then
            match operator_of (dag_tasks d) id with
            | Some op =>
                let '(s, w') := run_task (dag_retries d) id op w in
                schedule k d (st ++ [(id, s)]) (elapse w')
            | None => (st, w)
            end
          else schedule k d (st ++ [(id, upstream_failed)]) w
      end
  end.

Definition dag_run (d : DAG) (w : World) : States * World :=
  schedule (List.length (dag_tasks d)) d [] w.


(* ---------------------------------------------------------------- *)
(** *** dbt_mastery_pipeline.py: tasks and dependencies *)

Definition check_new_data : Task :=
  mkTask "check_new_data"
         (PythonOperator (check_for_new_csv glob_match cfg)).

Definition load_raw_data : Task :=
  mkTask "load_raw_data_to_mysql"
         (PythonOperator (load_csv_to_mysql read_csv store_rejects cfg)).

Definition dbt_deps_task : Task :=
  mkTask "dbt_deps" (BashOperator (DBT_DEPS cfg)).

Definition dbt_run_staging_task : Task :=
  mkTask "staging_layer.run_staging_models" (BashOperator (DBT_RUN_STAGING cfg)).
Definition dbt_test_staging_task : Task :=
  mkTask "staging_layer.test_staging_models" (BashOperator (DBT_TEST_STAGING cfg)).

Definition dbt_run_intermediate_task : Task :=
  mkTask "intermediate_layer.run_intermediate_models"
         (BashOperator (DBT_RUN_INTERMEDIATE cfg)).
Definition dbt_test_intermediate_task : Task :=
  mkTask "intermediate_layer.test_intermediate_models"
         (BashOperator (DBT_TEST_INTERMEDIATE cfg)).

Definition dbt_run_marts_task : Task :=
  mkTask "marts_layer.run_marts_models" (BashOperator (DBT_RUN_MARTS cfg)).
Definition dbt_test_marts_task : Task :=
  mkTask "marts_layer.test_marts_models" (BashOperator (DBT_TEST_MARTS cfg)).

Definition archive_csv : Task :=
  mkTask "archive_processed_csv"
         (PythonOperator (archive_processed_csv cfg)).

Definition staging_group : Dep :=
  G [task_id dbt_run_staging_task; task_id dbt_test_staging_task].
Definition intermediate_group : Dep :=
  G [task_id dbt_run_intermediate_task; task_id dbt_test_intermediate_task].
Definition marts_group : Dep :=
  G [task_id dbt_run_marts_task; task_id dbt_test_marts_task].

(** Lines 200, 217 and 234: the dependencies inside the groups. *)
Definition group_edges : list Edge :=
  chain [] [T (task_id dbt_run_staging_task); T (task_id dbt_test_staging_task)]
  ++ chain [] [T (task_id dbt_run_intermediate_task);
               T (task_id dbt_test_intermediate_task)]
  ++ chain [] [T (task_id dbt_run_marts_task); T (task_id dbt_test_marts_task)].

(** Lines 249 and 250: the main pipeline flow. *)
Definition flow_edges : list Edge :=
  chain group_edges [T (task_id check_new_data); T (task_id load_raw_data);
                     T (task_id dbt_deps_task); staging_group]
  ++ chain group_edges [staging_group; intermediate_group; marts_group;
                        T (task_id archive_csv)].

Definition dag : DAG := {|
  dag_tasks := [check_new_data; load_raw_data; dbt_deps_task;
                dbt_run_staging_task; dbt_test_staging_task;
                dbt_run_intermediate_task; dbt_test_intermediate_task;
                dbt_run_marts_task; dbt_test_marts_task; archive_csv];
  dag_edges := group_edges ++ flow_edges;
  dag_retries := 1
|}.

End Run.

(* ================================================================== *)
(** ** Vocabulary of the statements *)

(** The modification time as a total function, for stating orders. *)
Definition mtime (f : FS) (p : str) : Z :=
  match lookup f p with Some n => st_mtime_of n | None => 0%Z end.

(** The sizes of at most [k] successive batches of [c] rows cut from [m]
    rows. *)
Fixpoint batch_sizes (c k m : nat) : list nat :=
  match k with
  | 0 => []
  | S k' => if m =? 0 then [] else Nat.min c m :: batch_sizes c k' (m - c)
  end.

(** The INSERT batches that [w'] has executed since [w]. *)
Definition new_batches (w w' : World) : list nat :=
  skipn (List.length (executed (store w))) (executed (store w')).

(** The batch size would be configurable if two configurations could make
    the same load, of the same file into the same store, write batches of
    different sizes. *)
Definition batch_size_configurable : Prop :=
  exists (read_csv : str -> Result DataFrame)
         (store_rejects : list Row -> list Row -> bool)
         (cfg1 cfg2 : Config) (context : Context) (w : World)
         (v1 v2 : XVal) (w1 w2 : World),
    load_csv_to_mysql read_csv store_rejects cfg1 context w = (Ok v1, w1)
    /\ load_csv_to_mysql read_csv store_rejects cfg2 context w = (Ok v2, w2)
    /\ new_batches w w1 <> new_batches w w2.

(** The stamped name of a file. *)
Definition stamped (filename timestamp : str) : str :=
  let '(name, ext) := splitext filename in
  name ++ "_" ++ timestamp ++ ext.

(** Python's order on [str]: by code point, a prefix first. *)
Fixpoint str_compare (a b : str) : comparison :=
  match a, b with
  | [], [] => Eq
  | [], _ :: _ => Lt
  | _ :: _, [] => Gt
  | x :: a', y :: b' =>
      match N.compare (N_of_ascii x) (N_of_ascii y) with
      | Eq => str_compare a' b'
      | c => c
      end
  end.

(** Lexicographic combination of two comparisons. *)
Definition then_compare (c d : comparison) : comparison :=
  match c with Eq => d | _ => c end.

(** The order of two clock readings up to the second. *)
Definition sec_compare (a b : datetime) : comparison :=
  then_compare (N.compare (year a) (year b))
    (then_compare (N.compare (month a) (month b))
      (then_compare (N.compare (day a) (day b))
        (then_compare (N.compare (hour a) (hour b))
          (then_compare (N.compare (minute a) (minute b))
            (N.compare (second a) (second b)))))).

Definition is_digit (c : ascii) : bool :=
  ((48 <=? N_of_ascii c) && (N_of_ascii c <=? 57))%N.

(** [YYYYMMDD_HHMMSS]: eight digits, an underscore, six digits. *)
Definition timestamp_shape (ts : str) : bool :=
  match ts with
  | [y1; y2; y3; y4; m1; m2; d1; d2; u; h1; h2; n1; n2; s1; s2] =>
      forallb is_digit [y1; y2; y3; y4; m1; m2; d1; d2; h1; h2; n1; n2; s1; s2]
      && is_char u "_"
  | _ => false
  end.

(* ================================================================== *)
(** ** Sample worlds *)

(** The body of a bracket expression and the pattern after it: the first
    closing bracket that is not the first character of the body ends it. *)
Fixpoint class_split (first : bool) (pattern : str) : option (str * str) :=
  match pattern with
  | [] => None
  | c :: rest =>
      if is_char c "]" && negb first then Some ([], rest)
      else match class_split false rest with
           | Some (body, after) => Some (c :: body, after)
           | None => None
           end
  end.

(** Whether the body of a bracket expression holds [x]: [lo-hi] is a
    range, every other character stands for itself. *)
Fixpoint class_has (body : str) (x : ascii) : bool :=
  match body with
  | lo :: (dash :: hi :: rest) as tail =>
      if is_char dash "-" then
        ((N_of_ascii lo <=? N_of_ascii x) && (N_of_ascii x <=? N_of_ascii hi))%N
        || class_has rest x
      else is_char lo x || class_has tail x
  | c :: rest => is_char c x || class_has rest x
  | [] => false
  end.

(** [fnmatch.fnmatchcase]: literal characters, [?] for one character, [*]
    for any run of characters, [[seq]] and [[!seq]] for one character in
    or not in [seq]; a bracket that is never closed stands for itself.
    Every step uses up a character of the pattern. *)
Fixpoint fnmatch (fuel : nat) (pattern name : str) : bool :=
  match fuel with
  | 0 => false
  | S fuel' =>
      match pattern with
      | [] => match name with [] => true | _ => false end
      | c :: pattern' =>
          if is_char c "*" then
            (fix star (n : str) : bool :=
               fnmatch fuel' pattern' n
               || match n with [] => false | _ :: n' => star n' end) name
          else
            match name with
            | [] => false
            | x :: name' =>
                if is_char c "?" then fnmatch fuel' pattern' name'
                else if is_char c "[" then
                  let negated := startswith pattern' "!" in
                  let body := if negated then skipn 1 pattern' else pattern' in
                  match class_split true body with
                  | Some (seq, after) =>
                      xorb negated (class_has seq x) && fnmatch fuel' after name'
                  | None => is_char c x && fnmatch fuel' pattern' name'
                  end
                else is_char c x && fnmatch fuel' pattern' name'
            end
      end
  end.

(** A matcher for the witnesses: [fnmatch] with glob's rule that a hidden
    name needs a pattern that starts with the dot. *)
Definition wildcard (pattern name : str) : bool :=
  (startswith pattern "." || negb (startswith name "."))
  && fnmatch (S (List.length pattern)) pattern name.

Definition fs_demo : FS :=
  [ ("/data/in/routes_a.csv" : str, Reached (File 100 "id,o,d"));
    ("/data/in/notes.txt" : str,    Reached (File 900 "x"));
    ("/data/in/routes_b.csv" : str, Reached (File 300 "id,o,d"));
    ("/data/in/routes_c.csv" : str, Reached (File 300 "id,o,d"));
    ("/data/in/old/routes_z.csv" : str, Reached (File 999 "id,o,d"));
    ("/data/in/routes_e.csv" : str, Reached (File 0 [])) ].

Definition world_demo : World :=
  mkWorld fs_demo (mkStore [] None true []) [] 1000
          (mkdatetime 2025 11 14 9 30 0 0).

(** The same intake with a symbolic link, listed last, whose target is
    gone. *)
Definition fs_dangling : FS :=
  fs_demo ++ [("/data/in/routes_link.csv" : str, Dangling)].

(** Directories [i] and [n], and one whose name is a bracket expression. *)
Definition fs_brackets : FS :=
  [ ("/data/[in]/routes_a.csv" : str, Reached (File 100 "id,o,d"));
    ("/data/i/routes_b.csv" : str, Reached (File 200 "id,o,d"));
    ("/data/n/routes_c.csv" : str, Reached (File 300 "id,o,d"));
    ("/data/n/old/routes_d.csv" : str, Reached (File 400 "id,o,d")) ].

Definition ctx_check : Context := mkContext "check_new_data".

(** The candidate of [world_demo], and the world after an external mover
    took it away. *)
Definition world_gone : World :=
  set_fs world_demo (remove fs_demo "/data/in/routes_b.csv").

(** The same path, present with zero bytes. *)
Definition world_empty : World :=
  set_fs world_demo
         (remove fs_demo "/data/in/routes_b.csv"
          ++ [("/data/in/routes_b.csv" : str, Reached (File 300 []))]).

Definition ctx_archive : Context := mkContext "archive_processed_csv".

Definition cfg_demo : Config :=
  mkConfig "/dbt" "/home/.dbt" "/data/in" "/data/processed" "/data/archive"
           "mysql_dbt_mastery" "dbt_mastery" "raw_flights_data"
           "routes_*.csv" "alex@example.com".

(** The world after the search handed over [routes_b.csv]. *)
Definition world_found : World :=
  set_xcom world_demo
           [("check_new_data" : str, "csv_file_path" : str,
             XStr "/data/in/routes_b.csv")].

(** The world after a first, successful archiving. *)
Definition world_archived : World :=
  snd (archive_processed_csv cfg_demo ctx_archive world_found).

Definition line_feed : ascii := "010"%char.

(** [n] rows, each holding its number from [first] on in eight digits. *)
Fixpoint numbered_rows (first : N) (n : nat) : DataFrame :=
  match n with
  | 0 => []
  | S n' => [pad4 (first / 10000) ++ pad4 (first mod 10000)]%N
            :: numbered_rows (N.succ first) n'
  end.

(** A reader for the witnesses: the first line is the header, every further
    line feed ends a row, and a row holds its number. *)
Definition rows_by_line (bytes : str) : Result DataFrame :=
  match bytes with
  | [] => Raise (ParserError "No columns to parse from file")
  | _ =>
      Ok (numbered_rows 0
            (pred (List.length (filter (fun c => is_char c line_feed) bytes))))
  end.

(** A store that takes every batch, and a shell whose commands succeed
    without touching the world. *)
Definition accept_all (rows batch : list Row) : bool := false.
Definition bash_ok (cmd : str) : M unit := ret tt.

(** Five minutes on the system clock. *)
Definition tick (w : World) : World :=
  mkWorld (fs w) (store w) (xcom w) (time w + 300) (now w).

(** An intake directory whose only matching file has no bytes. *)
Definition world_only_empty : World :=
  mkWorld [("/data/in/routes_e.csv" : str, Reached (File 0 []));
           ("/data/in/notes.txt" : str, Reached (File 900 "x"))]
          (mkStore [("raw_flights_data" : str, [["1" : str]])] None true [])
          [] 1000 (mkdatetime 2025 11 14 9 30 0 0).

(** A file of [n] rows under a header line. *)
Definition csv_bytes (n : nat) : str :=
  "id" ++ line_feed :: flat_map (fun _ => "7" ++ [line_feed]) (seq 0 n).

Definition ctx_load : Context := mkContext "load_raw_data_to_mysql".

(** The search has handed over a file of [n] rows; the raw table holds one
    row of an earlier load. *)
Definition world_loading (n : nat) : World :=
  mkWorld [("/data/in/routes_20251101.csv" : str, Reached (File 100 (csv_bytes n)))]
          (mkStore [("raw_flights_data" : str, [["earlier" : str]])] None true [])
          [("check_new_data" : str, "csv_file_path" : str,
            XStr "/data/in/routes_20251101.csv")]
          1000 (mkdatetime 2025 11 14 9 30 0 0).

(** A reader under which every file has 10001 rows. *)
Definition read_10001_rows (bytes : str) : Result DataFrame :=
  Ok (numbered_rows 0 10001).

(** A store that refuses a batch of fewer than 10000 rows. *)
Definition reject_short (rows batch : list Row) : bool :=
  List.length batch <? 10000.

(** The world after a load of 10001 rows whose second batch was refused:
    one batch of 10000 rows is in the log of the store, the table is back at
    its one row. *)
Definition world_rolled_back : World :=
  set_store (world_loading 3)
            (mkStore [("raw_flights_data" : str, [["earlier" : str]])]
                     None true [10000]).

(** The world after the load of the three rows of [world_loading 3]. *)
Definition world_loaded_3 : World :=
  set_store (world_loading 3)
            (mkStore [("raw_flights_data" : str,
                       [["earlier" : str]; ["00000000" : str];
                        ["00000001" : str]; ["00000002" : str]])]
                     None true [3]).

(** The world after [routes_b.csv] of [world_found] was moved. *)
Definition world_moved : World :=
  snd (move_file "/data/in/routes_b.csv" "/data/processed" world_found).

(* ================================================================== *)
(** ** Vocabulary of the further properties *)

(** The rows of the raw table. *)
Definition raw_rows (cfg : Config) (w : World) : list Row :=
  table_rows (tables (store w)) (MYSQL_RAW_TABLE cfg).

(** The states of a run in which the first [k] tasks succeeded, the next
    one failed and the others were not run. *)
Definition outcome (ids : list str) (k : nat) : States :=
  combine ids (repeat success k ++ failed :: repeat upstream_failed (List.length ids)).

(** The task [id] was run: it has ended in [success] or in [failed]. *)
Definition ran (st : States) (id : str) : Prop :=
  state_of st id = Some success \/ state_of st id = Some failed.

Definition ran_b (st : States) (id : str) : bool :=
  match state_of st id with
  | Some success | Some failed => true
  | _ => false
  end.

(** A retry delay during which a file of three rows arrives. *)
Definition late_arrival (w : World) : World :=
  mkWorld (fs w ++ [("/data/in/routes_late.csv" : str, Reached (File 2000 (csv_bytes 3)))])
          (store w) (xcom w) (time w + 300) (now w).

(** A fresh intake: one file of three rows, nothing handed over yet, one
    row of an earlier load in the raw table. *)
Definition world_intake : World := set_xcom (world_loading 3) [].

(** The world after the load task of [world_loading 3]. *)
Definition world_load_done : World :=
  set_xcom world_loaded_3
           (("load_raw_data_to_mysql" : str, "return_value" : str, XInt 3)
            :: xcom world_loaded_3).

(* ================================================================== *)
(** * Properties *)

(** ** Strings, paths and the sample worlds *)

Lemma str_eqb_eq (a b : str) : str_eqb a b = true <-> a = b.
Proof.
  unfold str_eqb. destruct (list_eq_dec ascii_dec a b); split; congruence.
Qed.

Lemma str_eqb_refl (a : str) : str_eqb a a = true.
Proof. now apply str_eqb_eq. Qed.

Lemma str_eqb_neq (a b : str) : str_eqb a b = false <-> a <> b.
Proof.
  unfold str_eqb. destruct (list_eq_dec ascii_dec a b); split; congruence.
Qed.

Example basename_ex : basename "/data/in/routes_1.csv" = "routes_1.csv".
Proof. reflexivity. Qed.

Example splitext_ex : splitext "routes_1.csv" = ("routes_1" : str, ".csv" : str).
Proof. reflexivity. Qed.

Example splitext_hidden : splitext "..bashrc" = ("..bashrc" : str, [] : str).
Proof. reflexivity. Qed.

Example path_join_ex : path_join "/data/in" "routes_*.csv" = "/data/in/routes_*.csv".
Proof. reflexivity. Qed.

Example glob_demo :
  glob_glob wildcard fs_demo (path_join "/data/in" "routes_*.csv")
  = [ "/data/in/routes_a.csv" : str; "/data/in/routes_b.csv" : str;
      "/data/in/routes_c.csv" : str; "/data/in/routes_e.csv" : str ].
Proof. reflexivity. Qed.

(** A wildcard in the directory is expanded: the directory whose name is
    the bracket expression itself is not among the matches. *)
Example glob_bracket_directory :
  glob_glob wildcard fs_brackets (path_join "/data/[in]" "routes_*.csv")
  = [ "/data/i/routes_b.csv" : str; "/data/n/routes_c.csv" : str ].
Proof. reflexivity. Qed.

Example glob_without_wildcard :
  glob_glob wildcard fs_brackets (path_join "/data/n" "routes_c.csv")
  = [ "/data/n/routes_c.csv" : str ].
Proof. reflexivity. Qed.

(** A dangling link is listed like every other entry. *)
Example glob_dangling :
  glob_glob wildcard fs_dangling (path_join "/data/in" "routes_*.csv")
  = [ "/data/in/routes_a.csv" : str; "/data/in/routes_b.csv" : str;
      "/data/in/routes_c.csv" : str; "/data/in/routes_e.csv" : str;
      "/data/in/routes_link.csv" : str ].
Proof. reflexivity. Qed.

Example wildcard_classes :
  wildcard "[!a-c]x[]]" "dx]" = true
  /\ wildcard "[!a-c]x" "bx" = false
  /\ wildcard "[ab" "[ab" = true
  /\ wildcard "a[b-d-f]" "ae" = false
  /\ wildcard "[in]" "[in]" = false
  /\ wildcard "*.csv" ".hidden.csv" = false.
Proof. repeat split. Qed.

Example find_latest_demo :
  find_latest_csv wildcard fs_demo "/data/in" "routes_*.csv"
  = Ok (Some ("/data/in/routes_b.csv" : str)).
Proof. reflexivity. Qed.

Example find_latest_none :
  find_latest_csv wildcard fs_demo "/data/in" "flights_*.csv" = Ok None.
Proof. reflexivity. Qed.

Example strftime_ex :
  strftime (mkdatetime 2025 11 14 9 30 0 123456) = "20251114_093000".
Proof. reflexivity. Qed.

Example move_file_demo :
  fst (move_file "/data/in/routes_b.csv" "/data/processed" world_demo)
  = Ok ("/data/processed/routes_b_20251114_093000.csv" : str).
Proof. reflexivity. Qed.

Example move_file_demo_fs :
  map fst (fs (snd (move_file "/data/in/routes_b.csv" "/data/processed" world_demo)))
  = [ "/data/in/routes_a.csv" : str; "/data/in/notes.txt" : str;
      "/data/in/routes_c.csv" : str; "/data/in/old/routes_z.csv" : str;
      "/data/in/routes_e.csv" : str; "/data/processed" : str;
      "/data/processed/routes_b_20251114_093000.csv" : str ].
Proof. reflexivity. Qed.

(** ** The File Locator *)

Lemma lookup_entry (f : FS) (p : str) (n : Node) :
  lookup f p = Some n <-> entry_of f p = Some (Reached n).
Proof.
  unfold lookup. destruct (entry_of f p) as [[m|]|]; split; congruence.
Qed.

Lemma path_exists_lookup (f : FS) (p : str) :
  path_exists f p = true <-> exists n, lookup f p = Some n.
Proof.
  unfold path_exists. destruct (lookup f p) as [n|]; split.
  - eauto.
  - reflexivity.
  - discriminate.
  - intros [n H]. discriminate.
Qed.

Lemma glob_listed glob_match (f : FS) (pathname p : str) :
  In p (glob_glob glob_match f pathname) -> In p (map fst f).
Proof. unfold glob_glob. intros H. apply filter_In in H. tauto. Qed.



Lemma getmtime_exists (f : FS) (p : str) :
  path_exists f p = true -> getmtime f p = Ok (mtime f p).
Proof.
  intros H. apply path_exists_lookup in H. destruct H as [n Hn].
  unfold getmtime, mtime. now rewrite Hn.
Qed.

(** [os.path.getmtime] on a path that [os.stat] does not reach, a
    dangling link among them. *)
Lemma getmtime_missing (f : FS) (p : str) :
  path_exists f p = false -> getmtime f p = Raise (no_such_file p).
Proof.
  unfold path_exists, getmtime. now destruct (lookup f p).
Qed.

(** A list of paths splits at the first one that cannot be stat'ed. *)
Lemma first_missing (f : FS) (l : list str) :
  Forall (fun g => path_exists f g = true) l
  \/ exists pre g post,
       l = pre ++ g :: post
       /\ Forall (fun x => path_exists f x = true) pre
       /\ path_exists f g = false.
Proof.
  induction l as [|x l IH].
  - left. constructor.
  - destruct (path_exists f x) eqn:E.
    + destruct IH as [IH|(pre & g & post & -> & P & G)].
      * left. now constructor.
      * right. exists (x :: pre), g, post. repeat split; auto.
    + right. exists [], x, l. repeat split; auto.
Qed.

Section MaxFrom.

Context {A : Type} (key : A -> Result Z) (kz : A -> Z).

(** [max_from] keeps the first element with the greatest key: everything
    listed before it is strictly smaller, nothing after it is greater. *)
Lemma max_from_first_greatest (l : list A) :
  forall (pre mid : list A) (best : A),
    (forall x, In x l -> key x = Ok (kz x)) ->
    Forall (fun g => (kz g < kz best)%Z) pre ->
    Forall (fun g => (kz g <= kz best)%Z) mid ->
    exists r pre' post',
      max_from key best (kz best) l = Ok r
      /\ pre ++ best :: mid ++ l = pre' ++ r :: post'
      /\ Forall (fun g => (kz g < kz r)%Z) pre'
      /\ Forall (fun g => (kz g <= kz r)%Z) post'.
Proof.
  induction l as [|x l IH]; intros pre mid best Hkey Hpre Hmid.
  - exists best, pre, mid. rewrite app_nil_r. simpl. auto.
  - simpl. rewrite (Hkey x) by (now left). simpl.
    assert (Hl : forall y, In y l -> key y = Ok (kz y))
      by (intros y Hy; apply Hkey; now right).
    destruct (kz x >? kz best)%Z eqn:Hgt.
    + apply Z.gtb_lt in Hgt.
      destruct (IH (pre ++ best :: mid) [] x Hl) as (r & pre' & post' & E & D & P1 & P2).
      * apply Forall_app. split.
        -- eapply Forall_impl; [|exact Hpre]. simpl. intros; lia.
        -- constructor; [lia|].
           eapply Forall_impl; [|exact Hmid]. simpl. intros; lia.
      * constructor.
      * exists r, pre', post'. repeat split; auto.
        rewrite <- D. simpl. rewrite <- app_assoc. reflexivity.
    + assert (Hle : (kz x <= kz best)%Z).
      { destruct (Z.gtb_spec (kz x) (kz best)); [discriminate|lia]. }
      destruct (IH pre (mid ++ [x]) best Hl Hpre) as (r & pre' & post' & E & D & P1 & P2).
      * apply Forall_app. split; [exact Hmid|]. constructor; [exact Hle|constructor].
      * exists r, pre', post'. repeat split; auto.
        rewrite <- D. rewrite <- app_assoc. reflexivity.
Qed.

Lemma py_max_first_greatest (x : A) (l : list A) :
  (forall y, In y (x :: l) -> key y = Ok (kz y)) ->
  exists r pre post,
    py_max key x l = Ok r
    /\ x :: l = pre ++ r :: post
    /\ Forall (fun g => (kz g < kz r)%Z) pre
    /\ Forall (fun g => (kz g <= kz r)%Z) post.
Proof.
  intros Hkey. unfold py_max. rewrite (Hkey x) by (now left). simpl.
  destruct (max_from_first_greatest l [] [] x) as (r & pre & post & E & D & P1 & P2);
    auto.
  - intros y Hy. apply Hkey. now right.
  - exists r, pre, post. auto.
Qed.

(** The element so described is unique. *)
Lemma first_greatest_unique (l pre pre' post post' : list A) (r r' : A) :
  l = pre ++ r :: post ->
  l = pre' ++ r' :: post' ->
  Forall (fun g => (kz g < kz r)%Z) pre ->
  Forall (fun g => (kz g <= kz r)%Z) post ->
  Forall (fun g => (kz g < kz r')%Z) pre' ->
  Forall (fun g => (kz g <= kz r')%Z) post' ->
  pre = pre' /\ r = r'.
Proof.
  revert l pre'. induction pre as [|a pre IH]; intros l pre' E E' P1 P2 P1' P2'.
  - destruct pre' as [|a' pre'].
    + simpl in *. subst l. inversion E'. auto.
    + simpl in *. subst l. inversion E'; subst.
      inversion P1'; subst.
      assert (In r' (pre' ++ r' :: post')) by (apply in_elt).
      rewrite Forall_forall in P2. specialize (P2 r' H). lia.
  - destruct pre' as [|a' pre'].
    + simpl in *. subst l. inversion E'; subst.
      inversion P1; subst.
      assert (In r (pre ++ r :: post)) by (apply in_elt).
      rewrite Forall_forall in P2'. specialize (P2' r H). lia.
    + simpl in *. subst l. inversion E'; subst.
      inversion P1; inversion P1'; subst.
      destruct (IH (pre ++ r :: post) pre') as [-> ->]; auto.
Qed.

(** A key that raises ends the call with its exception. *)
Lemma max_from_raises (pre post : list A) (g : A) (e : Exc) :
  forall (best : A) (kbest : Z),
    (forall x, In x pre -> key x = Ok (kz x)) ->
    key g = Raise e ->
    max_from key best kbest (pre ++ g :: post) = Raise e.
Proof.
  induction pre as [|x pre IH]; intros best kbest Hpre Hg; simpl.
  - now rewrite Hg.
  - rewrite (Hpre x) by (now left). simpl.
    destruct (kz x >? kbest)%Z; apply IH; auto;
      intros y Hy; apply Hpre; now right.
Qed.

Lemma py_max_raises (x : A) (l pre post : list A) (g : A) (e : Exc) :
  x :: l = pre ++ g :: post ->
  (forall y, In y pre -> key y = Ok (kz y)) ->
  key g = Raise e ->
  py_max key x l = Raise e.
Proof.
  intros D Hpre Hg. unfold py_max. destruct pre as [|y pre]; simpl in D.
  - inversion D; subst. now rewrite Hg.
  - inversion D; subst. rewrite (Hpre y) by (now left). simpl.
    apply max_from_raises; auto. intros z Hz. apply Hpre. now right.
Qed.

End MaxFrom.

Section LocatorProps.

Variable glob_match : str -> str -> bool.

(** With every match within reach of [os.stat], the search returns the
    first of the latest matches. *)
Lemma find_latest_csv_first_latest (f : FS) (directory pattern : str) :
  let files := glob_glob glob_match f (path_join directory pattern) in
  files <> [] ->
  Forall (fun g => path_exists f g = true) files ->
  exists r pre post,
    find_latest_csv glob_match f directory pattern = Ok (Some r)
    /\ files = pre ++ r :: post
    /\ Forall (fun g => (mtime f g < mtime f r)%Z) pre
    /\ Forall (fun g => (mtime f g <= mtime f r)%Z) post.
Proof.
  intros files Hne Hstat. unfold find_latest_csv. fold files.
  destruct files as [|x l] eqn:E; [congruence|].
  destruct (py_max_first_greatest (getmtime f) (mtime f) x l)
    as (r & pre & post & Hm & D & P1 & P2).
  - intros y Hy. apply getmtime_exists.
    rewrite Forall_forall in Hstat. now apply Hstat.
  - exists r, pre, post. rewrite Hm. simpl. auto.
Qed.

(** The search raises at the first match that [os.stat] does not reach:
    [max] computes the keys in listing order and [os.path.getmtime] has no
    guard. *)
Lemma find_latest_csv_raises (f : FS) (directory pattern : str)
    (pre post : list str) (g : str) :
  glob_glob glob_match f (path_join directory pattern) = pre ++ g :: post ->
  Forall (fun x => path_exists f x = true) pre ->
  path_exists f g = false ->
  find_latest_csv glob_match f directory pattern = Raise (no_such_file g).
Proof.
  intros D Hpre Hg. unfold find_latest_csv.
  destruct (glob_glob glob_match f (path_join directory pattern)) as [|x l] eqn:E.
  - destruct pre; discriminate.
  - rewrite (py_max_raises (getmtime f) (mtime f) x l pre post g (no_such_file g));
      auto.
    + intros y Hy. apply getmtime_exists.
      rewrite Forall_forall in Hpre. now apply Hpre.
    + now apply getmtime_missing.
Qed.

(** The three outcomes of a search. *)
Lemma find_latest_csv_cases (f : FS) (directory pattern : str) :
  find_latest_csv glob_match f directory pattern = Ok None
  \/ (exists r n,
        find_latest_csv glob_match f directory pattern = Ok (Some r)
        /\ lookup f r = Some n)
  \/ (exists g,
        In g (glob_glob glob_match f (path_join directory pattern))
        /\ path_exists f g = false
        /\ find_latest_csv glob_match f directory pattern
           = Raise (no_such_file g)).
Proof.
  destruct (glob_glob glob_match f (path_join directory pattern)) as [|x l] eqn:E.
  - left. unfold find_latest_csv. now rewrite E.
  - right.
    destruct (first_missing f (x :: l)) as [Hall|(pre & g & post & D & P & G)].
    + left.
      destruct (find_latest_csv_first_latest f directory pattern)
        as (r & pre & post & Hr & D & _).
      { rewrite E. discriminate. }
      { rewrite E. exact Hall. }
      exists r.
      assert (Hin : In r (x :: l)).
      { cbv zeta in D. rewrite E in D. rewrite D. apply in_elt. }
      rewrite Forall_forall in Hall. apply Hall in Hin.
      apply path_exists_lookup in Hin. destruct Hin as [n Hn].
      exists n. auto.
    + right. exists g. split; [rewrite D; apply in_elt|].
      split; [exact G|].
      apply (find_latest_csv_raises f directory pattern pre post g); auto.
      rewrite E. exact D.
Qed.

(** C1, as the code has it.  When [os.stat] reaches every path that
    matches the pattern, [find_latest_csv] returns [None] exactly when
    nothing matches; otherwise it returns one of the matching paths, and no
    matching path has a greater modification time. *)
Theorem find_latest_csv_greatest_mtime (f : FS) (directory pattern : str) :
  let files := glob_glob glob_match f (path_join directory pattern) in
  Forall (fun g => path_exists f g = true) files ->
  match files with
  | [] => find_latest_csv glob_match f directory pattern = Ok None
  | _ :: _ =>
      exists latest m,
        find_latest_csv glob_match f directory pattern = Ok (Some latest)
        /\ In latest files
        /\ getmtime f latest = Ok m
        /\ Forall (fun g => exists mg, getmtime f g = Ok mg /\ (mg <= m)%Z) files
  end.
Proof.
  intros files Hstat.
  destruct files as [|x l] eqn:E.
  - unfold find_latest_csv. fold files. now rewrite E.
  - destruct (find_latest_csv_first_latest f directory pattern)
      as (r & pre & post & Hr & D & P1 & P2).
    { fold files. rewrite E. discriminate. }
    { fold files. rewrite E. exact Hstat. }
    fold files in D. rewrite E in D.
    rewrite Forall_forall in Hstat.
    exists r, (mtime f r). repeat split.
    + exact Hr.
    + rewrite D. apply in_elt.
    + apply getmtime_exists, Hstat. rewrite D. apply in_elt.
    + apply Forall_forall. intros g Hg. exists (mtime f g). split.
      * apply getmtime_exists, Hstat, Hg.
      * rewrite D in Hg. apply in_app_or in Hg.
        rewrite Forall_forall in P1, P2.
        destruct Hg as [Hg|[Hg|Hg]].
        -- specialize (P1 g Hg). lia.
        -- subst g. lia.
        -- now apply P2.
Qed.

End LocatorProps.

Lemma find_latest_csv_greatest_mtime_witness :
  exists latest m,
    find_latest_csv wildcard fs_demo "/data/in" "routes_*.csv" = Ok (Some latest)
    /\ In latest (glob_glob wildcard fs_demo (path_join "/data/in" "routes_*.csv"))
    /\ getmtime fs_demo latest = Ok m
    /\ Forall (fun g => exists mg, getmtime fs_demo g = Ok mg /\ (mg <= m)%Z)
              (glob_glob wildcard fs_demo (path_join "/data/in" "routes_*.csv")).
Proof.
  apply (find_latest_csv_greatest_mtime wildcard fs_demo "/data/in" "routes_*.csv").
  vm_compute. repeat constructor.
Defined.

(** C1, as stated, fails.  A dangling link among the matches: regular files
    match the pattern, and the search returns neither the latest of them
    nor [None]; the [FileNotFoundError] of [os.path.getmtime] ends it. *)
Lemma find_latest_csv_dangling_link :
  In ("/data/in/routes_b.csv" : str)
     (glob_glob wildcard fs_dangling (path_join "/data/in" "routes_*.csv"))
  /\ getmtime fs_dangling "/data/in/routes_b.csv" = Ok 300%Z
  /\ find_latest_csv wildcard fs_dangling "/data/in" "routes_*.csv"
     = Raise (no_such_file "/data/in/routes_link.csv")
  /\ forall r, find_latest_csv wildcard fs_dangling "/data/in" "routes_*.csv" <> Ok r.
Proof.
  split; [vm_compute; tauto|]. split; [reflexivity|].
  split; [reflexivity|]. intros r H. vm_compute in H. discriminate.
Qed.

Section LocatorTies.

Variable glob_match : str -> str -> bool.

(** C9. When two or more matching files share the latest modification
    time, either some match is out of reach of [os.stat], and then every
    search in the snapshot raises the same [FileNotFoundError], or
    [find_latest_csv] selects the one of the latest files that the
    snapshot lists first: the selected path is fixed by the snapshot, and a
    second search in the same snapshot returns it again. *)
Theorem find_latest_csv_tie_deterministic
    (w : World) (directory pattern : str) (a b : str) :
  let files := glob_glob glob_match (fs w) (path_join directory pattern) in
  In a files -> In b files -> a <> b ->
  mtime (fs w) a = mtime (fs w) b ->
  Forall (fun g => (mtime (fs w) g <= mtime (fs w) a)%Z) files ->
  (exists g,
      In g files
      /\ path_exists (fs w) g = false
      /\ find_latest_csv glob_match (fs w) directory pattern
         = Raise (no_such_file g)
      /\ find_twice glob_match directory pattern w = (Raise (no_such_file g), w))
  \/ exists r pre post,
       find_twice glob_match directory pattern w = (Ok (Some r, Some r), w)
       /\ mtime (fs w) r = mtime (fs w) a
       /\ files = pre ++ r :: post
       /\ Forall (fun g => (mtime (fs w) g < mtime (fs w) r)%Z) pre
       /\ Forall (fun g => (mtime (fs w) g <= mtime (fs w) r)%Z) post
       /\ (forall r' pre' post',
             files = pre' ++ r' :: post' ->
             Forall (fun g => (mtime (fs w) g < mtime (fs w) r')%Z) pre' ->
             Forall (fun g => (mtime (fs w) g <= mtime (fs w) r')%Z) post' ->
             r' = r).
Proof.
  intros files Ha Hb Hab Hm Hmax.
  destruct (first_missing (fs w) files) as [Hall|(pre & g & post & D & P & G)].
  - right.
    destruct (find_latest_csv_first_latest glob_match (fs w) directory pattern)
      as (r & pre & post & Hr & D & P1 & P2).
    { fold files. intros E. rewrite E in Ha. exact Ha. }
    { exact Hall. }
    fold files in D.
    exists r, pre, post. repeat split; auto.
    + unfold find_twice, bind, read_fs, ret. now rewrite Hr.
    + assert (Hra : In r files) by (rewrite D; apply in_elt).
      rewrite Forall_forall in Hmax. specialize (Hmax r Hra).
      rewrite D in Ha. apply in_app_or in Ha.
      rewrite Forall_forall in P1, P2.
      destruct Ha as [Ha|[Ha|Ha]].
      * specialize (P1 a Ha). lia.
      * now subst.
      * specialize (P2 a Ha). lia.
    + intros r' pre' post' D' P1' P2'.
      destruct (first_greatest_unique (mtime (fs w)) files pre' pre post' post r' r)
        as [_ E]; auto.
  - left. exists g.
    assert (Hr : find_latest_csv glob_match (fs w) directory pattern
                 = Raise (no_such_file g)).
    { apply (find_latest_csv_raises glob_match (fs w) directory pattern pre post g);
        auto. }
    split; [rewrite D; apply in_elt|]. split; [exact G|]. split; [exact Hr|].
    unfold find_twice, bind, read_fs. now rewrite Hr.
Qed.

End LocatorTies.

Lemma find_latest_csv_tie_deterministic_witness :
  exists r pre post,
    find_twice wildcard "/data/in" "routes_*.csv" world_demo
    = (Ok (Some r, Some r), world_demo)
    /\ mtime fs_demo r = mtime fs_demo "/data/in/routes_b.csv"
    /\ glob_glob wildcard fs_demo (path_join "/data/in" "routes_*.csv")
       = pre ++ r :: post
    /\ Forall (fun g => (mtime fs_demo g < mtime fs_demo r)%Z) pre
    /\ Forall (fun g => (mtime fs_demo g <= mtime fs_demo r)%Z) post
    /\ (forall r' pre' post',
          glob_glob wildcard fs_demo (path_join "/data/in" "routes_*.csv")
          = pre' ++ r' :: post' ->
          Forall (fun g => (mtime fs_demo g < mtime fs_demo r')%Z) pre' ->
          Forall (fun g => (mtime fs_demo g <= mtime fs_demo r')%Z) post' ->
          r' = r).
Proof.
  destruct (find_latest_csv_tie_deterministic wildcard world_demo
              "/data/in" "routes_*.csv"
              "/data/in/routes_b.csv" "/data/in/routes_c.csv")
    as [(g & Hg & He & _)|H].
  - vm_compute. tauto.
  - vm_compute. tauto.
  - discriminate.
  - reflexivity.
  - vm_compute. repeat constructor; discriminate.
  - exfalso. vm_compute in Hg.
    destruct Hg as [<-|[<-|[<-|[<-|[]]]]]; vm_compute in He; discriminate.
  - exact H.
Defined.

(* ================================================================== *)
(** ** Validation of the candidate *)

Section Validation.

Variable glob_match : str -> str -> bool.
Variable cfg : Config.

Lemma check_file_exists_false (f : FS) (p : str) :
  path_exists f p = false \/ getsize f p = Ok 0 ->
  check_file_exists f p = Ok false.
Proof.
  unfold check_file_exists. intros [H|H].
  - now rewrite H.
  - destruct (path_exists f p); simpl; [|reflexivity].
    now rewrite H.
Qed.

Lemma validate_candidate_fails (context : Context) (csv_file : str) (w : World) :
  path_exists (fs w) csv_file = false \/ getsize (fs w) csv_file = Ok 0 ->
  validate_candidate context csv_file w
  = (Raise (ValueError ("File exists but is empty: " ++ csv_file)), w).
Proof.
  intros H. unfold validate_candidate, bind, read_fs.
  rewrite (check_file_exists_false _ _ H). reflexivity.
Qed.

End Validation.

(** C4.  The search selects a file; the file is moved away before the
    check; the check then raises the error of the empty file, which says
    that the file exists, not a [FileNotFoundError], and it is the error
    that the same path raises when it is present with zero bytes. *)
Lemma validation_vanished_is_not_distinct :
  fst (locate_candidate wildcard cfg_demo world_demo) = Ok ("/data/in/routes_b.csv" : str)
  /\ path_exists (fs world_gone) "/data/in/routes_b.csv" = false
  /\ lookup (fs world_empty) "/data/in/routes_b.csv" = Some (File 300 [])
  /\ fst (validate_candidate ctx_check "/data/in/routes_b.csv" world_gone)
     = Raise (ValueError "File exists but is empty: /data/in/routes_b.csv")
  /\ fst (validate_candidate ctx_check "/data/in/routes_b.csv" world_empty)
     = fst (validate_candidate ctx_check "/data/in/routes_b.csv" world_gone)
  /\ ~ (exists msg,
          fst (validate_candidate ctx_check "/data/in/routes_b.csv" world_gone)
          = Raise (FileNotFoundError msg)).
Proof.
  repeat split; try reflexivity.
  intros [msg H]. vm_compute in H. discriminate.
Qed.

(* ================================================================== *)
(** ** The Archiver: a source that is gone *)

Section ArchiverGone.

Variable cfg : Config.
Variable run_bash : str -> M unit.
Variable elapse : World -> World.

Lemma archive_gone (context : Context) (w : World) (p : str) :
  xcom_get (xcom w) "check_new_data" "csv_file_path" = XStr p ->
  path_exists (fs w) p = false ->
  archive_processed_csv cfg context w = (Ok XNone, w).
Proof.
  intros Hx He. unfold archive_processed_csv, bind, xcom_pull.
  rewrite Hx, He. now rewrite andb_false_r.
Qed.

(** C7. When the path handed over by the search no longer exists,
    [archive_processed_csv] returns [None] and raises nothing, the world
    is left as it was, and the task of the DAG ends in [success] on its
    first try. *)
Theorem archive_missing_source_is_benign (context : Context) (w : World) (p : str) :
  xcom_get (xcom w) "check_new_data" "csv_file_path" = XStr p ->
  path_exists (fs w) p = false ->
  archive_processed_csv cfg context w = (Ok XNone, w)
  /\ run_task run_bash elapse 1 (task_id (archive_csv cfg))
              (operator (archive_csv cfg)) w = (success, w).
Proof.
  intros Hx He. split.
  - now apply archive_gone with (p := p).
  - simpl. unfold bind.
    rewrite (archive_gone _ w p Hx He). reflexivity.
Qed.

(** C10. [move_file] on a path that does not exist raises
    [FileNotFoundError] and leaves the world as it was: no directory is
    made, nothing is moved.  [archive_processed_csv] in the same world
    returns [None]: it tests for the source itself and does not reach
    [move_file]. *)
Theorem move_file_missing_source_raises
    (context : Context) (w : World) (source destination_dir : str) :
  path_exists (fs w) source = false ->
  move_file source destination_dir w
  = (Raise (FileNotFoundError ("Source file not found: " ++ source)), w)
  /\ (xcom_get (xcom w) "check_new_data" "csv_file_path" = XStr source ->
      archive_processed_csv cfg context w = (Ok XNone, w)).
Proof.
  intros He. split.
  - unfold move_file. now rewrite He.
  - intros Hx. now apply archive_gone with (p := source).
Qed.

End ArchiverGone.

Example archive_first_time :
  fst (archive_processed_csv cfg_demo ctx_archive world_found)
  = Ok (XStr "/data/processed/routes_b_20251114_093000.csv").
Proof. reflexivity. Qed.

Lemma archive_missing_source_is_benign_witness :
  archive_processed_csv cfg_demo ctx_archive world_archived
  = (Ok XNone, world_archived)
  /\ run_task (fun _ => ret tt) (fun w => w) 1 (task_id (archive_csv cfg_demo))
              (operator (archive_csv cfg_demo)) world_archived
     = (success, world_archived).
Proof.
  apply (archive_missing_source_is_benign cfg_demo (fun _ => ret tt) (fun w => w)
           ctx_archive world_archived "/data/in/routes_b.csv").
  - reflexivity.
  - reflexivity.
Defined.

Lemma move_file_missing_source_raises_witness :
  move_file "/data/in/routes_b.csv" "/data/elsewhere" world_archived
  = (Raise (FileNotFoundError ("Source file not found: " ++ "/data/in/routes_b.csv")),
     world_archived)
  /\ (xcom_get (xcom world_archived) "check_new_data" "csv_file_path"
      = XStr "/data/in/routes_b.csv" ->
      archive_processed_csv cfg_demo ctx_archive world_archived
      = (Ok XNone, world_archived)).
Proof.
  apply (move_file_missing_source_raises cfg_demo ctx_archive world_archived
           "/data/in/routes_b.csv" "/data/elsewhere").
  reflexivity.
Defined.

(* ================================================================== *)
(** ** A run without a usable file *)

Section AbortedRun.

Variable glob_match : str -> str -> bool.
Variable read_csv : str -> Result DataFrame.
Variable store_rejects : list Row -> list Row -> bool.
Variable run_bash : str -> M unit.
Variable cfg : Config.
Variable elapse : World -> World.

Local Abbreviation the_dag := (dag glob_match read_csv store_rejects cfg).
Local Abbreviation sched := (schedule run_bash elapse).

Lemma check_for_new_csv_aborts (context : Context) (w : World) :
  no_usable_file glob_match cfg (fs w) ->
  exists e, check_for_new_csv glob_match cfg context w = (Raise e, w).
Proof.
  intros [H|[p [H Hs]]];
    unfold check_for_new_csv, locate_candidate, bind, read_fs; rewrite H.
  - eexists. reflexivity.
  - unfold ret.
    rewrite (validate_candidate_fails context p w) by (now right).
    eexists. reflexivity.
Qed.





End AbortedRun.


(* ================================================================== *)
(** ** The Incremental Loader *)

Lemma append_rows_nil (t : Tables) (name : str) : append_rows t name [] = t.
Proof.
  induction t as [|[n rows] rest IH]; simpl; [reflexivity|].
  destruct (str_eqb n name); [now rewrite app_nil_r|now rewrite IH].
Qed.

Lemma append_rows_app (t : Tables) (name : str) (a b : list Row) :
  append_rows (append_rows t name a) name b = append_rows t name (a ++ b).
Proof.
  induction t as [|[n rows] rest IH]; simpl; [reflexivity|].
  destruct (str_eqb n name) eqn:E; simpl; rewrite E.
  - now rewrite app_assoc.
  - now rewrite IH.
Qed.

Lemma table_rows_append (t : Tables) (name : str) (b : list Row) :
  has_table t name = true ->
  table_rows (append_rows t name b) name = table_rows t name ++ b.
Proof.
  induction t as [|[n rows] rest IH]; simpl; [discriminate|].
  destruct (str_eqb n name) eqn:E; simpl; rewrite E; auto.
Qed.

Lemma table_rows_missing (t : Tables) (name : str) :
  has_table t name = false -> table_rows t name = [].
Proof.
  induction t as [|[n rows] rest IH]; simpl; [reflexivity|].
  destruct (str_eqb n name); simpl; [discriminate|auto].
Qed.

Lemma table_rows_created (t : Tables) (name : str) :
  has_table t name = false ->
  table_rows (t ++ [(name, [])]) name = table_rows t name
  /\ has_table (t ++ [(name, [])]) name = true.
Proof.
  induction t as [|[n rows] rest IH]; simpl.
  - rewrite str_eqb_refl. auto.
  - destruct (str_eqb n name); simpl; [discriminate|auto].
Qed.

Lemma firstn_min_length {A} (c : nat) (l : list A) :
  firstn (Nat.min c (List.length l)) l = firstn c l.
Proof.
  destruct (Nat.le_gt_cases c (List.length l)).
  - now rewrite Nat.min_l.
  - rewrite Nat.min_r by lia. rewrite firstn_all.
    symmetry. apply firstn_all2. lia.
Qed.

Lemma slice_chunk {A} (i c : nat) (l : list A) :
  slice (i * c) (Nat.min ((i + 1) * c) (List.length l)) l
  = firstn c (skipn (i * c) l).
Proof.
  unfold slice. rewrite <- (firstn_min_length c (skipn (i * c) l)).
  f_equal. rewrite length_skipn. lia.
Qed.

Lemma firstn_add_skipn {A} (a b : nat) (l : list A) :
  firstn a l ++ firstn b (skipn a l) = firstn (a + b) l.
Proof.
  revert l. induction a as [|a IH]; intros l; simpl; [reflexivity|].
  destruct l as [|x l]; simpl.
  - now rewrite firstn_nil.
  - now rewrite IH.
Qed.

Lemma batch_sizes_zero (c k : nat) : batch_sizes c k 0 = [].
Proof. destruct k; reflexivity. Qed.

Lemma batch_sizes_closed (c : nat) :
  0 < c ->
  forall q r, r < c ->
    batch_sizes c (S q) (q * c + r)
    = repeat c q ++ (if r =? 0 then [] else [r]).
Proof.
  intros Hc. induction q as [|q IH]; intros r Hr.
  - simpl. destruct (r =? 0) eqn:E; [reflexivity|].
    now rewrite Nat.min_r by lia.
  - change (batch_sizes c (S (S q)) (S q * c + r))
      with (if S q * c + r =? 0 then []
            else Nat.min c (S q * c + r) :: batch_sizes c (S q) (S q * c + r - c)).
    replace (S q * c + r =? 0) with false by (symmetry; apply Nat.eqb_neq; simpl; lia).
    replace (S q * c + r - c) with (q * c + r) by (simpl; lia).
    rewrite IH by exact Hr.
    rewrite Nat.min_l by (simpl; lia). reflexivity.
Qed.

Section LoaderLemmas.

Variable read_csv : str -> Result DataFrame.
Variable store_rejects : list Row -> list Row -> bool.
Variable cfg : Config.

(** The loop touches the tables and the log of the store and nothing
    else; when it returns, the rows it was to write are all appended, in
    batches of [c]. *)
Lemma insert_chunks_spec (name : str) (frame : DataFrame) (c : nat) :
  0 < c ->
  forall k i w r w',
    insert_chunks store_rejects name frame c (seq i k) w = (r, w') ->
    exists t e,
      w' = set_store w (mkStore t (undo (store w)) (reachable (store w)) e)
      /\ (r = Ok tt ->
          t = append_rows (tables (store w)) name
                          (firstn (k * c) (skipn (i * c) frame))
          /\ e = executed (store w)
                 ++ batch_sizes c k (List.length frame - i * c)).
Proof.
  intros Hc. induction k as [|k IH]; intros i w r w' H.
  - simpl in H. inversion H; subst.
    destruct w' as [f [t u rch ex] x tm nw].
    exists t, ex. split; [reflexivity|]. intros _. simpl.
    now rewrite append_rows_nil, app_nil_r.
  - simpl seq in H. cbn [insert_chunks] in H.
    rewrite slice_chunk in H.
    destruct (Nat.min ((i + 1) * c) (List.length frame) <=? i * c) eqn:Hbrk.
    + apply Nat.leb_le in Hbrk.
      inversion H; subst.
      destruct w' as [f [t u rch ex] x tm nw].
      exists t, ex. split; [reflexivity|]. intros _.
      assert (Hlen : List.length frame <= i * c) by lia.
      rewrite (skipn_all2 frame Hlen), firstn_nil. simpl store. cbn [tables executed].
      rewrite append_rows_nil.
      replace (List.length frame - i * c) with 0 by lia.
      simpl. now rewrite app_nil_r.
    + apply Nat.leb_gt in Hbrk.
      unfold bind, exec_insert in H.
      destruct (store_rejects (table_rows (tables (store w)) name)
                  (firstn c (skipn (i * c) frame))) eqn:Hrej.
      * inversion H; subst.
        destruct w' as [f [t u rch ex] x tm nw].
        exists t, ex. split; [reflexivity|]. discriminate.
      * apply IH in H. destruct H as (t & e & Hw & Hok).
        exists t, e. split.
        -- rewrite Hw. destruct w as [f [t0 u rch ex] x tm nw]. reflexivity.
        -- intros Hr. destruct (Hok Hr) as [Ht He]. split.
           ++ rewrite Ht. simpl store. cbn [tables].
              rewrite append_rows_app. f_equal.
              replace (S i * c) with (c + i * c) by lia.
              rewrite <- skipn_skipn.
              replace (S k * c) with (c + k * c) by lia.
              apply firstn_add_skipn.
           ++ rewrite He. simpl store. cbn [executed].
              rewrite <- app_assoc. f_equal.
              cbn [batch_sizes].
              replace (List.length frame - i * c =? 0) with false
                by (symmetry; apply Nat.eqb_neq; lia).
              cbn [app]. f_equal.
              ** rewrite length_firstn, length_skipn. reflexivity.
              ** f_equal. lia.
Qed.

End LoaderLemmas.

Lemma chunksize_positive : 0 < 10000.
Proof. apply Nat.ltb_lt. vm_compute. reflexivity. Qed.

Section LoaderCases.

Variable read_csv : str -> Result DataFrame.
Variable store_rejects : list Row -> list Row -> bool.
Variable cfg : Config.

Lemma with_table_rows (t : Tables) (name : str) :
  table_rows (with_table t name) name = table_rows t name
  /\ has_table (with_table t name) name = true.
Proof.
  unfold with_table. destruct (has_table t name) eqn:E; [auto|].
  now apply table_rows_created.
Qed.

Lemma full_frame (c : nat) (frame : DataFrame) :
  0 < c ->
  firstn ((List.length frame / c + 1) * c) (skipn (0 * c) frame) = frame.
Proof.
  intros Hc. simpl skipn. apply firstn_all2.
  pose proof (Nat.mul_succ_div_gt (List.length frame) c). lia.
Qed.

(** [to_sql] inside an open transaction whose point of return is the
    state of the tables at its start. *)
Lemma to_sql_in_transaction (name : str) (frame : DataFrame) (c : nat)
    (w : World) (r : Result unit) (w' : World) :
  0 < c ->
  undo (store w) = Some (tables (store w)) ->
  to_sql store_rejects name frame c w = (r, w') ->
  exists t e,
    w' = set_store w (mkStore t (Some (with_table (tables (store w)) name))
                              (reachable (store w)) e)
    /\ (r = Ok tt ->
        t = append_rows (with_table (tables (store w)) name) name frame
        /\ e = executed (store w)
               ++ batch_sizes c (List.length frame / c + 1) (List.length frame)).
Proof.
  intros Hc Hu H.
  destruct w as [f [t0 u rch ex] x tm nw]. simpl in Hu. subst u.
  unfold to_sql, bind, create_if_missing in H.
  cbn [store tables undo reachable executed] in *.
  set (w1 := mkWorld f (mkStore (with_table t0 name) (Some (with_table t0 name)) rch ex)
                     x tm nw).
  assert (H1 : (if has_table t0 name
                then (Ok tt, mkWorld f (mkStore t0 (Some t0) rch ex) x tm nw)
                else (Ok tt,
                      set_store (mkWorld f (mkStore t0 (Some t0) rch ex) x tm nw)
                        (mkStore (t0 ++ [(name, [])])
                           (option_map (fun _ => t0 ++ [(name, [])]) (Some t0))
                           rch ex)))
               = (Ok tt, w1)).
  { unfold w1, with_table. destruct (has_table t0 name); reflexivity. }
  rewrite H1 in H. clear H1.
  destruct (List.length frame =? 0) eqn:Hn.
  - apply Nat.eqb_eq in Hn. inversion H; subst.
    exists (with_table t0 name), ex. split; [reflexivity|]. intros _.
    destruct frame; [|discriminate]. cbn [List.length].
    now rewrite append_rows_nil, batch_sizes_zero, app_nil_r.
  - replace (c =? 0) with false in H by (symmetry; apply Nat.eqb_neq; lia).
    apply insert_chunks_spec in H; [|exact Hc].
    destruct H as (t & e & Hw & Hok).
    exists t, e. split; [exact Hw|].
    intros Hr. destruct (Hok Hr) as [Ht He]. split.
    + rewrite Ht. unfold w1. simpl. now rewrite full_frame.
    + rewrite He. unfold w1. simpl. now rewrite Nat.sub_0_r.
Qed.

Lemma with_engine_begin_to_sql (name : str) (frame : DataFrame) (c : nat)
    (w : World) (r : Result unit) (w' : World) :
  0 < c ->
  with_engine_begin (to_sql store_rejects name frame c) w = (r, w') ->
  (reachable (store w) = false /\ w' = w /\ exists ex, r = Raise ex)
  \/ (reachable (store w) = true
      /\ exists e,
           (r = Ok tt
            /\ w' = set_store w
                      (mkStore (append_rows (with_table (tables (store w)) name)
                                            name frame)
                               None true
                               (executed (store w)
                                ++ batch_sizes c (List.length frame / c + 1)
                                               (List.length frame))))
           \/ ((exists ex, r = Raise ex)
               /\ w' = set_store w
                         (mkStore (with_table (tables (store w)) name) None true e))).
Proof.
  intros Hc H. unfold with_engine_begin, engine_begin in H.
  destruct (reachable (store w)) eqn:Hr.
  - right. split; [reflexivity|].
    destruct (to_sql store_rejects name frame c
                (set_store w (mkStore (tables (store w)) (Some (tables (store w)))
                                      true (executed (store w)))))
      as [r2 w2] eqn:E.
    apply to_sql_in_transaction in E; [|exact Hc|reflexivity].
    destruct E as (t & e & Hw & Hok). exists e.
    destruct w as [f [t0 u rch ex] x tm nw]. simpl in *.
    destruct r2 as [[]|exc].
    + destruct (Hok eq_refl) as [Ht He]. left.
      inversion H; subst. split; reflexivity.
    + right. inversion H; subst. split; [eauto|reflexivity].
  - left. inversion H; subst. eauto.
Qed.

(** What a call of [load_csv_to_mysql] can do.  Either it raises before
    the store is touched, or the file was read as [df] and the store was
    reachable; then it returns the number of rows of [df] with all of [df]
    appended, or it raises with the rows of the table as they were. *)
Lemma load_csv_to_mysql_cases (context : Context) (w : World)
    (r : Result XVal) (w' : World) :
  load_csv_to_mysql read_csv store_rejects cfg context w = (r, w') ->
  (w' = w /\ exists ex, r = Raise ex)
  \/ exists p m bytes df e,
       xcom_get (xcom w) "check_new_data" "csv_file_path" = XStr p
       /\ lookup (fs w) p = Some (File m bytes)
       /\ read_csv bytes = Ok df
       /\ reachable (store w) = true
       /\ ((r = Ok (XInt (List.length df))
            /\ w' = set_store w
                      (mkStore (append_rows
                                  (with_table (tables (store w)) (MYSQL_RAW_TABLE cfg))
                                  (MYSQL_RAW_TABLE cfg) df)
                               None true
                               (executed (store w)
                                ++ batch_sizes 10000 (List.length df / 10000 + 1)
                                               (List.length df))))
           \/ ((exists ex, r = Raise ex)
               /\ w' = set_store w
                         (mkStore (with_table (tables (store w)) (MYSQL_RAW_TABLE cfg))
                                  None true e))).
Proof.
  intros H. unfold load_csv_to_mysql, bind, xcom_pull, pd_read_csv in H.
  destruct (xcom_get (xcom w) "check_new_data" "csv_file_path") as [|p|n] eqn:Hx;
    try (left; inversion H; subst; eauto; fail).
  destruct (lookup (fs w) p) as [[m bytes|m sz]|] eqn:Hl;
    try (left; inversion H; subst; eauto; fail).
  destruct (read_csv bytes) as [df|ex] eqn:Hread;
    try (left; inversion H; subst; eauto; fail).
  destruct (with_engine_begin (to_sql store_rejects (MYSQL_RAW_TABLE cfg) df 10000) w)
    as [r2 w2] eqn:E.
  apply with_engine_begin_to_sql in E; [|exact chunksize_positive].
  destruct E as [(Hr & -> & ex & ->)|(Hr & e & [[-> ->]|[[ex ->] ->]])].
  - left. inversion H; subst. eauto.
  - right. exists p, m, bytes, df, e. repeat split; auto.
    left. unfold ret in H. injection H as Hv Hw. now rewrite <- Hv, <- Hw.
  - right. exists p, m, bytes, df, e. repeat split; auto.
    right. injection H as Hv Hw. rewrite <- Hv, <- Hw. eauto.
Qed.

End LoaderCases.

Section LoaderProps.

Variable read_csv : str -> Result DataFrame.
Variable store_rejects : list Row -> list Row -> bool.
Variable cfg : Config.

Local Abbreviation load := (load_csv_to_mysql read_csv store_rejects cfg).
Local Abbreviation raw := (MYSQL_RAW_TABLE cfg).

(** C2. A call of [load_csv_to_mysql] that raises, whatever the batch at
    which the store refused, leaves the raw table with the rows it had,
    and no transaction open.  A call that returns has appended every row
    of the file.  No call leaves a part of the file in the table. *)
Theorem load_is_all_or_nothing (context : Context) (w : World)
    (r : Result XVal) (w' : World) :
  undo (store w) = None ->
  load context w = (r, w') ->
  undo (store w') = None
  /\ match r with
     | Raise _ =>
         table_rows (tables (store w')) raw = table_rows (tables (store w)) raw
         /\ row_count (store w') raw = row_count (store w) raw
     | Ok v =>
         exists df,
           v = XInt (List.length df)
           /\ table_rows (tables (store w')) raw
              = table_rows (tables (store w)) raw ++ df
     end.
Proof.
  intros Hu H. apply load_csv_to_mysql_cases in H.
  destruct (with_table_rows (tables (store w)) raw) as [Hrows Hhas].
  destruct H as [[-> [ex ->]]
                |(p & m & bytes & df & e & Hx & Hl & Hread & Hr
                  & [[-> ->]|[[ex ->] ->]])].
  - auto.
  - split; [reflexivity|]. exists df. split; [reflexivity|].
    cbn [store set_store tables]. now rewrite table_rows_append, Hrows.
  - split; [reflexivity|]. unfold row_count.
    cbn [store set_store tables]. now rewrite Hrows.
Qed.




End LoaderProps.

Lemma load_is_all_or_nothing_witness :
  undo (store world_rolled_back) = None
  /\ table_rows (tables (store world_rolled_back)) (MYSQL_RAW_TABLE dbt_config)
     = table_rows (tables (store (world_loading 3))) (MYSQL_RAW_TABLE dbt_config)
  /\ row_count (store world_rolled_back) (MYSQL_RAW_TABLE dbt_config)
     = row_count (store (world_loading 3)) (MYSQL_RAW_TABLE dbt_config).
Proof.
  apply (load_is_all_or_nothing read_10001_rows reject_short dbt_config ctx_load
           (world_loading 3) (Raise (DatabaseError "INSERT failed"))
           world_rolled_back).
  - reflexivity.
  - vm_compute. reflexivity.
Defined.


Example load_three_rows_twice :
  let run := load_csv_to_mysql rows_by_line accept_all dbt_config ctx_load in
  fst (run (world_loading 3)) = Ok (XInt 3)
  /\ row_count (store (world_loading 3)) "raw_flights_data" = 1
  /\ row_count (store (snd (run (world_loading 3)))) "raw_flights_data" = 4
  /\ row_count (store (snd (run (snd (run (world_loading 3)))))) "raw_flights_data" = 7.
Proof. vm_compute. repeat split. Qed.

(* ================================================================== *)
(** ** The size of the batches *)

Lemma batch_sizes_div (c n : nat) :
  0 < c ->
  batch_sizes c (n / c + 1) n
  = repeat c (n / c) ++ (if n mod c =? 0 then [] else [n mod c]).
Proof.
  intros Hc.
  pose proof (Nat.div_mod_eq n c) as E.
  pose proof (Nat.mod_upper_bound n c) as Hr.
  generalize dependent (n mod c). generalize dependent (n / c).
  intros q r E Hr. subst n.
  replace (q + 1) with (S q) by lia.
  replace (c * q + r) with (q * c + r) by lia.
  apply batch_sizes_closed; [exact Hc|]. apply Hr. lia.
Qed.

Section BatchSize.

Variable read_csv : str -> Result DataFrame.
Variable store_rejects : list Row -> list Row -> bool.

Lemma load_batches (cfg : Config) (context : Context) (w : World)
    (v : XVal) (w' : World) :
  load_csv_to_mysql read_csv store_rejects cfg context w = (Ok v, w') ->
  exists p m bytes df,
    xcom_get (xcom w) "check_new_data" "csv_file_path" = XStr p
    /\ lookup (fs w) p = Some (File m bytes)
    /\ read_csv bytes = Ok df
    /\ v = XInt (List.length df)
    /\ new_batches w w'
       = repeat 10000 (List.length df / 10000)
         ++ (if List.length df mod 10000 =? 0 then []
             else [List.length df mod 10000]).
Proof.
  intros H. apply load_csv_to_mysql_cases in H.
  destruct H as [[_ [ex Hex]]
                |(p & m & bytes & df & e & Hx & Hl & Hread & Hr
                  & [[Hv ->]|[[ex Hex] _]])]; try discriminate.
  exists p, m, bytes, df. inversion Hv; subst v.
  repeat split; auto.
  unfold new_batches. cbn [store set_store executed].
  rewrite skipn_app, skipn_all, Nat.sub_diag.
  cbn [app skipn]. apply batch_sizes_div. exact chunksize_positive.
Qed.

(** C8, as the code has it.  A load that returns [n] has written its rows
    in [n / 10000] batches of exactly 10000 rows, followed by one batch of
    the [n mod 10000] remaining rows when there are any.  The size is the
    literal of the call: it is the same under every configuration. *)
Theorem load_batches_of_ten_thousand (cfg : Config) (context : Context)
    (w : World) (v : XVal) (w' : World) :
  load_csv_to_mysql read_csv store_rejects cfg context w = (Ok v, w') ->
  exists n,
    v = XInt n
    /\ new_batches w w'
       = repeat 10000 (n / 10000)
         ++ (if n mod 10000 =? 0 then [] else [n mod 10000]).
Proof.
  intros H. apply load_batches in H.
  destruct H as (p & m & bytes & df & _ & _ & _ & Hv & Hb).
  exists (List.length df). auto.
Qed.

End BatchSize.

(** C8, as stated, fails: no configuration changes the size of the
    batches. *)
Lemma batch_size_is_not_configurable : ~ batch_size_configurable.
Proof.
  intros (read_csv & store_rejects & cfg1 & cfg2 & context & w & v1 & v2 & w1 & w2
          & H1 & H2 & Hne).
  apply load_batches in H1. apply load_batches in H2.
  destruct H1 as (p & m & bytes & df & Hx & Hl & Hread & _ & Hb).
  destruct H2 as (p' & m' & bytes' & df' & Hx' & Hl' & Hread' & _ & Hb').
  rewrite Hx in Hx'. inversion Hx'; subst p'.
  rewrite Hl in Hl'. inversion Hl'; subst m' bytes'.
  rewrite Hread in Hread'. inversion Hread'; subst df'.
  apply Hne. now rewrite Hb, Hb'.
Qed.

Lemma load_batches_of_ten_thousand_witness :
  exists n,
    XInt 3 = XInt n
    /\ new_batches (world_loading 3) world_loaded_3
       = repeat 10000 (n / 10000)
         ++ (if n mod 10000 =? 0 then [] else [n mod 10000]).
Proof.
  apply (load_batches_of_ten_thousand rows_by_line accept_all dbt_config
           ctx_load (world_loading 3) (XInt 3) world_loaded_3).
  vm_compute. reflexivity.
Defined.

(** 10001 rows go in one batch of 10000 rows and one batch of one row. *)
Example batches_of_10001_rows :
  new_batches (world_loading 3)
    (snd (load_csv_to_mysql read_10001_rows accept_all dbt_config ctx_load
            (world_loading 3)))
  = [10000; 1].
Proof. vm_compute. reflexivity. Qed.

(* ================================================================== *)
(** ** The Archiver: the name of the processed file *)

Lemma is_char_eq (x c : ascii) : is_char x c = true <-> x = c.
Proof. apply Ascii.eqb_eq. Qed.

Lemma is_char_neq (x c : ascii) : is_char x c = false <-> x <> c.
Proof. apply Ascii.eqb_neq. Qed.

Lemma rfind_None (c : ascii) (p : str) : rfind c p = None -> ~ In c p.
Proof.
  induction p as [|x q IH]; simpl; [tauto|].
  destruct (rfind c q); [discriminate|].
  destruct (is_char x c) eqn:E; [discriminate|].
  apply is_char_neq in E. intros _ [H|H]; [congruence|now apply IH].
Qed.

Lemma rfind_Some (c : ascii) (p : str) :
  forall i, rfind c p = Some i ->
    p = firstn i p ++ c :: skipn (S i) p /\ ~ In c (skipn (S i) p).
Proof.
  induction p as [|x q IH]; simpl; [discriminate|].
  intros i H. destruct (rfind c q) as [j|] eqn:E.
  - inversion H; subst i. destruct (IH j eq_refl) as [D N].
    split; [|exact N]. simpl. f_equal. exact D.
  - destruct (is_char x c) eqn:Ec; [|discriminate].
    inversion H; subst i. apply is_char_eq in Ec. subst x.
    split; [reflexivity|]. simpl. now apply rfind_None.
Qed.

Lemma basename_no_sep (p : str) : ~ In sep (basename p).
Proof.
  unfold basename. destruct (rfind sep p) as [i|] eqn:E.
  - now apply rfind_Some in E.
  - now apply rfind_None.
Qed.

Lemma nondot_before_false (i : nat) (p : str) :
  nondot_before i p = false -> Forall (fun x => x = extsep) (firstn i p).
Proof.
  revert p. induction i as [|i IH]; intros p H; simpl; [constructor|].
  destruct p as [|x q]; [constructor|]. simpl in H.
  destruct (is_char x extsep) eqn:E; [|discriminate].
  apply is_char_eq in E. constructor; auto.
Qed.

(** [splitext] cuts a name in two.  The extension is empty or starts at
    the last dot; when it is empty, no dot of the name follows a character
    that is not a dot. *)
Lemma splitext_spec (f : str) :
  f = fst (splitext f) ++ snd (splitext f)
  /\ ((exists e', snd (splitext f) = extsep :: e' /\ ~ In extsep e')
      \/ (snd (splitext f) = []
          /\ forall pre x post,
               fst (splitext f) = pre ++ x :: post ->
               x <> extsep -> ~ In extsep post)).
Proof.
  unfold splitext. destruct (rfind extsep f) as [i|] eqn:E.
  - destruct (rfind_Some _ _ _ E) as [D N].
    assert (Hs : skipn i f = extsep :: skipn (S i) f).
    { rewrite D at 1. rewrite skipn_app.
      assert (Hlen : List.length (firstn i f) = i).
      { pose proof (f_equal (@List.length ascii) D) as L.
        rewrite length_app in L. simpl in L.
        rewrite length_firstn in *. lia. }
      rewrite Hlen, Nat.sub_diag. rewrite skipn_all2 by lia. reflexivity. }
    destruct (nondot_before i f) eqn:Hn; simpl.
    + split; [now rewrite firstn_skipn|]. left. eauto.
    + split; [now rewrite app_nil_r|]. right. split; [reflexivity|].
      intros pre x post Hf Hx.
      apply nondot_before_false in Hn.
      assert (Hf' : (firstn i f ++ [extsep]) ++ skipn (S i) f = pre ++ x :: post).
      { rewrite <- app_assoc. cbn [app]. now rewrite <- D. }
      apply app_eq_app in Hf'. destruct Hf' as [l [[H1 H2]|[H1 H2]]].
      * destruct l as [|y l].
        -- cbn [app] in H2. rewrite <- H2 in N. intros Hin. apply N. now right.
        -- cbn [app] in H2. inversion H2; subst y.
           assert (Hin : In x (firstn i f ++ [extsep])).
           { rewrite H1. apply in_elt. }
           apply in_app_or in Hin. destruct Hin as [Hin|[Hin|[]]].
           ++ rewrite Forall_forall in Hn. now specialize (Hn x Hin).
           ++ congruence.
      * intros Hin. apply N. rewrite H2. apply in_or_app. right. now right.
  - simpl. split; [now rewrite app_nil_r|]. right. split; [reflexivity|].
    intros pre x post Hf Hx Hin. apply rfind_None in E. apply E.
    rewrite Hf. apply in_or_app. right. now right.
Qed.

Lemma app_inv_same_length {A} (a b c d : list A) :
  a ++ b = c ++ d -> List.length b = List.length d -> a = c /\ b = d.
Proof.
  intros H Hl.
  assert (Hlen : List.length a = List.length c).
  { apply (f_equal (@List.length A)) in H. rewrite !length_app in H. lia. }
  revert c H Hlen. induction a as [|x a IH]; intros [|y c] H Hlen;
    simpl in *; try discriminate; auto.
  inversion H; subst. destruct (IH c) as [-> ->]; auto.
Qed.

Lemma last_occurrence_unique {A} (c : A) (a1 a2 e1 e2 : list A) :
  a1 ++ c :: e1 = a2 ++ c :: e2 -> ~ In c e1 -> ~ In c e2 ->
  a1 = a2 /\ e1 = e2.
Proof.
  intros H N1 N2. apply app_eq_app in H.
  destruct H as [l [[H1 H2]|[H1 H2]]].
  - destruct l as [|y l].
    + simpl in H2. inversion H2. subst. now rewrite app_nil_r.
    + simpl in H2. inversion H2; subst. exfalso. apply N2.
      apply in_or_app. right. now left.
  - destruct l as [|y l].
    + simpl in H2. inversion H2. subst. now rewrite app_nil_r.
    + simpl in H2. inversion H2; subst. exfalso. apply N1.
      apply in_or_app. right. now left.
Qed.

Lemma stamped_ext_clash (n1 n2 t1 t2 e' : str) :
  ~ In extsep t2 ->
  (forall pre x post, n2 = pre ++ x :: post -> x <> extsep -> ~ In extsep post) ->
  n1 ++ "_" ++ t1 ++ extsep :: e' = n2 ++ "_" ++ t2 -> False.
Proof.
  intros N2 C2 H. cbn [list_ascii_of_string app] in H.
  assert (Hu : ~ In extsep ("_"%char :: t2)).
  { intros [Hin|Hin]; [discriminate|auto]. }
  apply app_eq_app in H. destruct H as [l [[H1 H2]|[H1 H2]]].
  - apply Hu. rewrite H2. apply in_or_app. right.
    right. apply in_or_app. right. now left.
  - destruct l as [|y l]; cbn [app] in H2.
    + apply Hu. rewrite <- H2. right. apply in_or_app. right. now left.
    + inversion H2; subst y.
      apply (C2 n1 "_"%char l H1); [discriminate|].
      assert (Hin : In extsep (l ++ "_"%char :: t2)).
      { rewrite <- H3. apply in_or_app. right. now left. }
      apply in_app_or in Hin. destruct Hin as [Hin|Hin]; [exact Hin|].
      now apply Hu in Hin.
Qed.

(** Two stamped names are equal only when their stamps are, for stamps of
    one length without a dot. *)
Lemma stamped_inj (f1 f2 t1 t2 : str) :
  List.length t1 = List.length t2 ->
  ~ In extsep t1 -> ~ In extsep t2 ->
  stamped f1 t1 = stamped f2 t2 -> t1 = t2.
Proof.
  intros Hlen N1 N2. unfold stamped.
  destruct (splitext_spec f1) as [_ S1]. destruct (splitext_spec f2) as [_ S2].
  destruct (splitext f1) as [n1 e1]. destruct (splitext f2) as [n2 e2].
  simpl in S1, S2. intros H.
  assert (Htail : forall a b : str, a ++ "_" ++ t1 = b ++ "_" ++ t2 -> t1 = t2).
  { intros a b Hab. apply app_inv_same_length in Hab.
    - destruct Hab as [_ Hab]. now inversion Hab.
    - simpl. now rewrite Hlen. }
  destruct S1 as [[e1' [-> Ne1]]|[-> C1]]; destruct S2 as [[e2' [-> Ne2]]|[-> C2]].
  - rewrite !app_assoc in H.
    apply last_occurrence_unique in H; auto.
    destruct H as [H _]. rewrite <- !app_assoc in H. now apply Htail in H.
  - exfalso. rewrite app_nil_r in H.
    now apply (stamped_ext_clash n1 n2 t1 t2 e1' N2 C2).
  - exfalso. rewrite app_nil_r in H. symmetry in H.
    now apply (stamped_ext_clash n2 n1 t2 t1 e2' N1 C1).
  - rewrite !app_nil_r in H. now apply Htail in H.
Qed.

(** *** The timestamp *)

Lemma str_compare_refl (a : str) : str_compare a a = Eq.
Proof.
  induction a as [|x a IH]; simpl; [reflexivity|].
  now rewrite N.compare_refl.
Qed.

Lemma str_compare_app (a a' b b' : str) :
  List.length a = List.length a' ->
  str_compare (a ++ b) (a' ++ b')
  = then_compare (str_compare a a') (str_compare b b').
Proof.
  revert a'. induction a as [|x a IH]; intros [|y a'] H; simpl in *;
    try discriminate; [reflexivity|].
  destruct (N.compare (N_of_ascii x) (N_of_ascii y)); auto.
Qed.

(** A property checked on every number below a bound holds below it. *)
Lemma checked_below (P : N -> bool) (bound : nat) :
  forallb P (map N.of_nat (seq 0 bound)) = true ->
  forall n, (n < N.of_nat bound)%N -> P n = true.
Proof.
  intros H n Hn. rewrite forallb_forall in H. apply H.
  apply in_map_iff. exists (N.to_nat n). split; [apply N2Nat.id|].
  apply in_seq. lia.
Qed.

Lemma pad2_digits (n : N) :
  (n < 100)%N -> forallb is_digit (pad2 n) = true.
Proof.
  apply (checked_below (fun n => forallb is_digit (pad2 n)) 100).
  vm_compute. reflexivity.
Qed.

Lemma pad2_compare (n m : N) :
  (n < 100)%N -> (m < 100)%N ->
  str_compare (pad2 n) (pad2 m) = N.compare n m.
Proof.
  intros Hn Hm.
  pose proof (checked_below
    (fun n => forallb (fun m => match str_compare (pad2 n) (pad2 m), N.compare n m with
                                | Eq, Eq | Lt, Lt | Gt, Gt => true
                                | _, _ => false
                                end)
                      (map N.of_nat (seq 0 100))) 100) as H.
  specialize (H ltac:(vm_compute; reflexivity) n Hn). cbv beta in H.
  pose proof (checked_below
    (fun m => match str_compare (pad2 n) (pad2 m), N.compare n m with
              | Eq, Eq | Lt, Lt | Gt, Gt => true
              | _, _ => false
              end) 100 H m Hm) as H'.
  cbv beta in H'.
  destruct (str_compare (pad2 n) (pad2 m)), (N.compare n m);
    try discriminate; reflexivity.
Qed.

Lemma compare_by_hundreds (a b : N) :
  (a ?= b)%N
  = then_compare (a / 100 ?= b / 100)%N (a mod 100 ?= b mod 100)%N.
Proof.
  pose proof (N.div_mod a 100 ltac:(discriminate)).
  pose proof (N.div_mod b 100 ltac:(discriminate)).
  pose proof (N.mod_lt a 100 ltac:(discriminate)).
  pose proof (N.mod_lt b 100 ltac:(discriminate)).
  unfold then_compare.
  generalize dependent (a / 100)%N. generalize dependent (a mod 100)%N.
  generalize dependent (b / 100)%N. generalize dependent (b mod 100)%N.
  intros rb Hrb qb Hb ra Hra qa Ha.
  destruct (N.compare_spec qa qb);
    destruct (N.compare_spec ra rb);
    destruct (N.compare_spec a b); try reflexivity; exfalso; lia.
Qed.

Lemma pad4_compare (n m : N) :
  (n < 10000)%N -> (m < 10000)%N ->
  str_compare (pad4 n) (pad4 m) = N.compare n m.
Proof.
  intros Hn Hm. unfold pad4.
  assert (n / 100 < 100)%N by (apply N.Div0.div_lt_upper_bound; lia).
  assert (m / 100 < 100)%N by (apply N.Div0.div_lt_upper_bound; lia).
  assert (n mod 100 < 100)%N by (apply N.mod_lt; discriminate).
  assert (m mod 100 < 100)%N by (apply N.mod_lt; discriminate).
  rewrite str_compare_app by reflexivity.
  rewrite !pad2_compare by assumption.
  symmetry. apply compare_by_hundreds.
Qed.

Lemma pad4_digits (n : N) :
  (n < 10000)%N -> forallb is_digit (pad4 n) = true.
Proof.
  intros Hn. unfold pad4. rewrite forallb_app.
  rewrite !pad2_digits; [reflexivity| |].
  - apply N.mod_lt. discriminate.
  - apply N.Div0.div_lt_upper_bound. lia.
Qed.

Lemma datetime_ok_bounds (d : datetime) :
  datetime_ok d = true ->
  (year d < 10000 /\ month d < 100 /\ day d < 100
   /\ hour d < 100 /\ minute d < 100 /\ second d < 100)%N.
Proof.
  unfold datetime_ok. rewrite !andb_true_iff.
  rewrite !N.leb_le, !N.ltb_lt. lia.
Qed.

Lemma strftime_shape (d : datetime) :
  datetime_ok d = true -> timestamp_shape (strftime d) = true.
Proof.
  intros H. apply datetime_ok_bounds in H.
  destruct H as (Hy & Hm & Hd & Hh & Hn & Hs).
  pose proof (pad4_digits _ Hy) as Dy.
  pose proof (pad2_digits _ Hm) as Dm. pose proof (pad2_digits _ Hd) as Dd.
  pose proof (pad2_digits _ Hh) as Dh. pose proof (pad2_digits _ Hn) as Dn.
  pose proof (pad2_digits _ Hs) as Ds.
  unfold strftime, pad4, pad2 in *. cbn [list_ascii_of_string app] in *.
  cbn [timestamp_shape forallb] in *.
  rewrite !andb_true_iff in *. intuition.
Qed.

Lemma shape_length (ts : str) :
  timestamp_shape ts = true -> List.length ts = 15.
Proof.
  do 16 (destruct ts as [|? ts]; try discriminate). reflexivity.
Qed.

Lemma shape_no_dot (ts : str) :
  timestamp_shape ts = true -> ~ In extsep ts.
Proof.
  do 16 (destruct ts as [|? ts]; try discriminate).
  cbn [timestamp_shape forallb]. rewrite !andb_true_iff.
  intros H Hin.
  assert (Hd : is_digit extsep = false) by reflexivity.
  assert (Hu : is_char extsep "_" = false) by reflexivity.
  cbn [In] in Hin.
  repeat (destruct Hin as [Hin|Hin]; [subst; intuition congruence|]).
  exact Hin.
Qed.

(** The timestamps sort as the seconds they stand for. *)
Lemma strftime_compare (a b : datetime) :
  datetime_ok a = true -> datetime_ok b = true ->
  str_compare (strftime a) (strftime b) = sec_compare a b.
Proof.
  intros Ha Hb.
  apply datetime_ok_bounds in Ha. apply datetime_ok_bounds in Hb.
  destruct Ha as (Hy & Hm & Hd & Hh & Hn & Hs).
  destruct Hb as (Hy' & Hm' & Hd' & Hh' & Hn' & Hs').
  unfold strftime, sec_compare.
  rewrite !str_compare_app by reflexivity.
  rewrite pad4_compare, !pad2_compare by assumption.
  reflexivity.
Qed.

Lemma then_compare_eq (c d : comparison) :
  then_compare c d = Eq <-> c = Eq /\ d = Eq.
Proof. destruct c, d; simpl; split; intros; intuition congruence. Qed.

Lemma sec_compare_eq (a b : datetime) :
  sec_compare a b = Eq <->
  year a = year b /\ month a = month b /\ day a = day b
  /\ hour a = hour b /\ minute a = minute b /\ second a = second b.
Proof.
  unfold sec_compare. rewrite !then_compare_eq, !N.compare_eq_iff. tauto.
Qed.

(** Two readings have one timestamp exactly when they agree up to the
    second. *)
Lemma strftime_eq (a b : datetime) :
  datetime_ok a = true -> datetime_ok b = true ->
  (strftime a = strftime b <-> sec_compare a b = Eq).
Proof.
  intros Ha Hb. split.
  - intros H. rewrite <- (strftime_compare a b Ha Hb), H.
    apply str_compare_refl.
  - intros H. apply sec_compare_eq in H.
    destruct H as (Hy & Hm & Hd & Hh & Hn & Hs).
    unfold strftime. now rewrite Hy, Hm, Hd, Hh, Hn, Hs.
Qed.

Lemma shape_chars (ts : str) :
  timestamp_shape ts = true ->
  Forall (fun c => is_digit c = true \/ c = "_"%char) ts.
Proof.
  do 16 (destruct ts as [|? ts]; try discriminate).
  cbn [timestamp_shape forallb]. rewrite !andb_true_iff, is_char_eq.
  intros H. repeat (apply Forall_cons; [tauto|]). apply Forall_nil.
Qed.

Lemma shape_without (c : ascii) (ts : str) :
  is_digit c = false -> c <> "_"%char ->
  timestamp_shape ts = true -> ~ In c ts.
Proof.
  intros Hd Hu H Hin. apply shape_chars in H.
  rewrite Forall_forall in H. destruct (H c Hin); congruence.
Qed.

(** *** Paths *)

Lemma startswith_absent (b : str) (c : ascii) : ~ In c b -> startswith b c = false.
Proof.
  destruct b as [|x b]; simpl; [reflexivity|].
  intros H. apply is_char_neq. intros ->. apply H. now left.
Qed.

Lemma path_join_inj (d x y : str) :
  ~ In sep x -> ~ In sep y -> path_join d x = path_join d y -> x = y.
Proof.
  intros Hx Hy. unfold path_join.
  rewrite (startswith_absent x sep Hx), (startswith_absent y sep Hy).
  destruct (match d with [] => true | _ :: _ => false end || endswith d sep);
    intros H; apply app_inv_head in H; [exact H|now inversion H].
Qed.

Lemma stamped_no_sep (p ts : str) :
  timestamp_shape ts = true -> ~ In sep (stamped (basename p) ts).
Proof.
  intros Hts. unfold stamped.
  destruct (splitext_spec (basename p)) as [D _].
  pose proof (basename_no_sep p) as N. rewrite D in N.
  destruct (splitext (basename p)) as [name ext]. simpl in N.
  cbn [list_ascii_of_string app].
  intros Hin. apply in_app_or in Hin. destruct Hin as [Hin|[Hin|Hin]].
  - apply N. apply in_or_app. now left.
  - discriminate.
  - apply in_app_or in Hin. destruct Hin as [Hin|Hin].
    + revert Hin. apply shape_without; [reflexivity|discriminate|exact Hts].
    + apply N. apply in_or_app. now right.
Qed.

(** *** The filesystem under a move *)

Lemma entry_of_app (f g : FS) (q : str) :
  entry_of (f ++ g) q
  = match entry_of f q with Some e => Some e | None => entry_of g q end.
Proof.
  induction f as [|[p e] f IH]; simpl; [reflexivity|].
  destruct (str_eqb p q); auto.
Qed.

Lemma entry_of_remove_other (f : FS) (p q : str) :
  q <> p -> entry_of (remove f p) q = entry_of f q.
Proof.
  intros Hne. unfold remove.
  induction f as [|[x e] f IH]; simpl; [reflexivity|].
  destruct (str_eqb x p) eqn:Exp; simpl.
  - apply str_eqb_eq in Exp. subst x.
    destruct (str_eqb p q) eqn:Epq; [|exact IH].
    apply str_eqb_eq in Epq. congruence.
  - destruct (str_eqb x q); [reflexivity|exact IH].
Qed.

Lemma entry_of_remove_same (f : FS) (p : str) : entry_of (remove f p) p = None.
Proof.
  unfold remove. induction f as [|[x e] f IH]; simpl; [reflexivity|].
  destruct (str_eqb x p) eqn:E; simpl; [exact IH|]. now rewrite E.
Qed.

Lemma lookup_app_some (f g : FS) (q : str) (n : Node) :
  lookup f q = Some n -> lookup (f ++ g) q = Some n.
Proof.
  unfold lookup. rewrite entry_of_app. now destruct (entry_of f q).
Qed.

Lemma lookup_remove_other (f : FS) (p q : str) :
  q <> p -> lookup (remove f p) q = lookup f q.
Proof. intros Hne. unfold lookup. now rewrite entry_of_remove_other. Qed.

Lemma rename_file_keeps (f : FS) (src dst q : str) (m : Z) (b : str) (n : Node) :
  lookup f src = Some (File m b) ->
  q <> src -> q <> dst ->
  lookup f q = Some n ->
  lookup (rename f src dst) q = Some n.
Proof.
  intros Hs H1 H2 Hq. unfold rename.
  apply lookup_entry in Hs. rewrite Hs.
  apply lookup_app_some.
  now rewrite !lookup_remove_other.
Qed.

Lemma makedirs_keeps (d : str) (w w1 : World) (r : Result unit) :
  makedirs d w = (r, w1) ->
  now w1 = now w
  /\ forall q n, lookup (fs w) q = Some n -> lookup (fs w1) q = Some n.
Proof.
  unfold makedirs. intros H.
  destruct (entry_of (fs w) d) as [[[m b|m s]|]|]; inversion H; subst; auto.
  split; [reflexivity|]. intros q n Hq. simpl. now apply lookup_app_some.
Qed.

Lemma shutil_move_keeps (src dst : str) (w w' : World) (q : str) (n : Node) :
  shutil_move src dst w = (Ok tt, w') ->
  (exists m b, lookup (fs w) src = Some (File m b)) ->
  q <> src -> q <> dst ->
  lookup (fs w) q = Some n ->
  lookup (fs w') q = Some n.
Proof.
  intros H [m [b Hs]] H1 H2 Hq. unfold shutil_move in H.
  destruct (path_isdir (fs w) dst).
  - destruct (str_eqb src dst); [now inversion H; subst|].
    destruct (path_exists (fs w) _) eqn:He; [discriminate|].
    inversion H; subst. simpl.
    apply (rename_file_keeps _ _ _ _ m b); auto.
    intros ->. unfold path_exists in He. now rewrite Hq in He.
  - pose proof Hs as Hs'. apply lookup_entry in Hs'. rewrite Hs' in H.
    inversion H; subst. simpl.
    now apply (rename_file_keeps _ _ _ _ m b).
Qed.

Lemma move_file_steps (source destination_dir : str) (w w' : World)
    (destination : str) :
  move_file source destination_dir w = (Ok destination, w') ->
  destination
  = path_join destination_dir (stamped (basename source) (strftime (now w)))
  /\ exists w1,
       makedirs destination_dir w = (Ok tt, w1)
       /\ shutil_move source destination w1 = (Ok tt, w').
Proof.
  unfold move_file, stamped.
  destruct (path_exists (fs w) source); simpl; [|discriminate].
  unfold bind. destruct (makedirs destination_dir w) as [[[]|e] w1] eqn:Em;
    [|discriminate].
  destruct (makedirs_keeps _ _ _ _ Em) as [Hnow _].
  unfold datetime_now. rewrite Hnow.
  destruct (splitext (basename source)) as [name ext].
  destruct (shutil_move source _ w1) as [[[]|e] w2] eqn:Es; [|discriminate].
  unfold ret. intros H. inversion H; subst. eauto.
Qed.

(** Two archivings into one directory at different seconds give different
    paths. *)
Lemma stamped_paths_differ (d p1 p2 : str) (t1 t2 : datetime) :
  datetime_ok t1 = true -> datetime_ok t2 = true ->
  sec_compare t1 t2 <> Eq ->
  path_join d (stamped (basename p1) (strftime t1))
  <> path_join d (stamped (basename p2) (strftime t2)).
Proof.
  intros H1 H2 Hne E. apply Hne.
  apply (strftime_eq t1 t2 H1 H2).
  pose proof (strftime_shape t1 H1) as S1.
  pose proof (strftime_shape t2 H2) as S2.
  apply path_join_inj in E; try now apply stamped_no_sep.
  assert (L : List.length (strftime t1) = List.length (strftime t2)).
  { rewrite (shape_length _ S1), (shape_length _ S2). reflexivity. }
  assert (N1 : ~ In extsep (strftime t1)).
  { apply shape_without; [reflexivity|discriminate|exact S1]. }
  assert (N2 : ~ In extsep (strftime t2)).
  { apply shape_without; [reflexivity|discriminate|exact S2]. }
  exact (stamped_inj _ _ _ _ L N1 N2 E).
Qed.

(** C6. A successful [move_file] returns the destination directory joined
    with [{stem}_{timestamp}{extension}], stem and extension being those of
    the name of the source.  The timestamp is the reading of the clock at
    the call in the shape [YYYYMMDD_HHMMSS]; timestamps sort as the seconds
    they stand for, and two readings have one timestamp exactly when they
    agree up to the second.  A file archived into the same directory at
    another second has another path, and the move of a regular file leaves
    it as it was. *)
Theorem move_file_stamped_name (source destination_dir : str) (w w' : World)
    (destination : str) :
  datetime_ok (now w) = true ->
  move_file source destination_dir w = (Ok destination, w') ->
  destination
  = path_join destination_dir
      (fst (splitext (basename source)) ++ "_" ++ strftime (now w)
       ++ snd (splitext (basename source)))
  /\ basename source
     = fst (splitext (basename source)) ++ snd (splitext (basename source))
  /\ timestamp_shape (strftime (now w)) = true
  /\ (forall d, datetime_ok d = true ->
        str_compare (strftime d) (strftime (now w)) = sec_compare d (now w))
  /\ (forall d, datetime_ok d = true ->
        (strftime d = strftime (now w) <-> sec_compare d (now w) = Eq))
  /\ (forall source0 w0 w0' archived n,
        datetime_ok (now w0) = true ->
        sec_compare (now w0) (now w) <> Eq ->
        move_file source0 destination_dir w0 = (Ok archived, w0') ->
        archived <> destination
        /\ (lookup (fs w) archived = Some n ->
            (exists m b, lookup (fs w) source = Some (File m b)) ->
            source <> archived ->
            lookup (fs w') archived = Some n)).
Proof.
  intros Hok H.
  destruct (move_file_steps _ _ _ _ _ H) as [Hd [w1 [Hm Hs]]].
  split; [|split; [|split; [|split; [|split]]]].
  - rewrite Hd. unfold stamped.
    now destruct (splitext (basename source)).
  - apply splitext_spec.
  - now apply strftime_shape.
  - intros d Hdok. now apply strftime_compare.
  - intros d Hdok. now apply strftime_eq.
  - intros source0 w0 w0' archived n Hok0 Hne H0.
    destruct (move_file_steps _ _ _ _ _ H0) as [Hd0 _].
    assert (Hdiff : archived <> destination).
    { rewrite Hd0, Hd. now apply stamped_paths_differ. }
    split; [exact Hdiff|].
    intros Hl [m [b Hsrc]] Hsa.
    destruct (makedirs_keeps _ _ _ _ Hm) as [_ Hkeep].
    apply (shutil_move_keeps source destination w1 w'); auto.
    exists m, b. now apply Hkeep.
Qed.

Lemma move_file_stamped_name_witness :
  ("/data/processed/routes_b_20251114_093000.csv" : str)
  = path_join "/data/processed"
      (fst (splitext (basename "/data/in/routes_b.csv")) ++ "_"
       ++ strftime (now world_found)
       ++ snd (splitext (basename "/data/in/routes_b.csv")))
  /\ basename "/data/in/routes_b.csv"
     = fst (splitext (basename "/data/in/routes_b.csv"))
       ++ snd (splitext (basename "/data/in/routes_b.csv"))
  /\ timestamp_shape (strftime (now world_found)) = true
  /\ (forall d, datetime_ok d = true ->
        str_compare (strftime d) (strftime (now world_found))
        = sec_compare d (now world_found))
  /\ (forall d, datetime_ok d = true ->
        (strftime d = strftime (now world_found)
         <-> sec_compare d (now world_found) = Eq))
  /\ (forall source0 w0 w0' archived n,
        datetime_ok (now w0) = true ->
        sec_compare (now w0) (now world_found) <> Eq ->
        move_file source0 "/data/processed" w0 = (Ok archived, w0') ->
        archived <> ("/data/processed/routes_b_20251114_093000.csv" : str)
        /\ (lookup (fs world_found) archived = Some n ->
            (exists m b,
                lookup (fs world_found) "/data/in/routes_b.csv" = Some (File m b)) ->
            ("/data/in/routes_b.csv" : str) <> archived ->
            lookup (fs world_moved) archived = Some n)).
Proof.
  apply (move_file_stamped_name "/data/in/routes_b.csv" "/data/processed"
           world_found world_moved
           "/data/processed/routes_b_20251114_093000.csv").
  - reflexivity.
  - vm_compute. reflexivity.
Defined.

(** The scenario of the specification: [routes_20251101.csv] archived on
    2025-11-14 at 09:30:00. *)
Example archive_routes_20251101 :
  let w := world_loading 3 in
  fst (archive_processed_csv cfg_demo ctx_archive w)
  = Ok (XStr "/data/processed/routes_20251101_20251114_093000.csv")
  /\ path_exists (fs (snd (archive_processed_csv cfg_demo ctx_archive w)))
       "/data/in/routes_20251101.csv" = false
  /\ path_exists (fs (snd (archive_processed_csv cfg_demo ctx_archive w)))
       "/data/processed/routes_20251101_20251114_093000.csv" = true.
Proof. vm_compute. repeat split. Qed.

(** Within one second a second file of the same name takes the place of the
    first. *)
Example same_second_same_name_collides :
  let w1 := snd (move_file "/data/in/routes_b.csv" "/data/processed" world_demo) in
  let w2 := set_fs w1 (fs w1 ++ [("/data/in/routes_b.csv" : str, Reached (File 500 "new"))]) in
  lookup (fs w1) "/data/processed/routes_b_20251114_093000.csv"
  = Some (File 300 "id,o,d")
  /\ fst (move_file "/data/in/routes_b.csv" "/data/processed" w2)
     = Ok ("/data/processed/routes_b_20251114_093000.csv" : str)
  /\ lookup (fs (snd (move_file "/data/in/routes_b.csv" "/data/processed" w2)))
            "/data/processed/routes_b_20251114_093000.csv"
     = Some (File 500 "new").
Proof. vm_compute. repeat split. Qed.

(* ================================================================== *)
(** ** More on the search *)

Lemma rstrip_sep_length (r : str) : List.length (rstrip_sep r) <= List.length r.
Proof.
  induction r as [|x q IH]; simpl; [lia|].
  destruct (is_char x sep); simpl; lia.
Qed.

Lemma seps_no_magic (s : str) :
  forallb (fun x => is_char x sep) s = true -> has_magic s = false.
Proof.
  induction s as [|x s IH]; simpl; [reflexivity|].
  intros H. apply andb_true_iff in H. destruct H as [Hx Hs].
  apply is_char_eq in Hx. subst x. rewrite (IH Hs). reflexivity.
Qed.

Lemma firstn_snoc {A : Type} (a b : list A) (c : A) :
  firstn (S (List.length a)) (a ++ c :: b) = a ++ [c].
Proof.
  rewrite firstn_app. replace (S (List.length a) - List.length a) with 1 by lia.
  rewrite firstn_all2 by lia. reflexivity.
Qed.

(** The directory part of a pathname is shorter than the pathname when it
    holds a wildcard. *)
Lemma dirname_shorter (s : str) :
  has_magic (dirname s) = true -> List.length (dirname s) < List.length s.
Proof.
  unfold dirname. destruct (rfind sep s) as [i|] eqn:E; [|discriminate].
  destruct (rfind_Some _ _ _ E) as [D _].
  assert (Hi : i < List.length s).
  { destruct (Nat.lt_ge_cases i (List.length s)) as [Hlt|Hge]; [exact Hlt|].
    apply (f_equal (@List.length ascii)) in D.
    rewrite length_app, firstn_all2 in D by lia. simpl in D. lia. }
  destruct (forallb (fun x => is_char x sep) (firstn (S i) s)) eqn:F.
  - intros H. rewrite (seps_no_magic _ F) in H. discriminate.
  - intros _. rewrite length_rev.
    assert (Hh : firstn (S i) s = firstn i s ++ [sep]).
    { pose proof (firstn_snoc (firstn i s) (skipn (S i) s) sep) as Q.
      rewrite <- D in Q. rewrite length_firstn, Nat.min_l in Q by lia.
      exact Q. }
    rewrite Hh, rev_app_distr. simpl.
    pose proof (rstrip_sep_length (rev (firstn i s))) as L.
    rewrite length_rev, length_firstn in L. lia.
Qed.

Section SearchMore.

Variable glob_match : str -> str -> bool.
Variable cfg : Config.

(** Fuel above the length of the pathname is never used up. *)
Lemma glob_yields_fuel (n : nat) :
  forall (pathname p : str) (m : nat),
    List.length pathname < n -> List.length pathname < m ->
    glob_yields glob_match n pathname p = glob_yields glob_match m pathname p.
Proof.
  induction n as [|n IH]; intros pathname p m Hn Hm; [lia|].
  destruct m as [|m]; [lia|]. cbn [glob_yields].
  destruct (has_magic pathname); [|reflexivity].
  destruct (has_magic (dirname pathname)) eqn:Hd; [|reflexivity].
  apply dirname_shorter in Hd.
  rewrite (IH (dirname pathname) (dirname p) m) by lia. reflexivity.
Qed.

(** X1. The search asks [os.path.getmtime] for every match and has no
    guard: it returns, a path or [None], exactly when [os.stat] reaches
    every path that glob lists for the pattern; otherwise it raises the
    [FileNotFoundError] of the first match out of reach, whatever the other
    matches are. *)
Theorem find_latest_csv_returns_iff (f : FS) (directory pattern : str) :
  let files := glob_glob glob_match f (path_join directory pattern) in
  ((exists r, find_latest_csv glob_match f directory pattern = Ok r)
   <-> Forall (fun g => path_exists f g = true) files)
  /\ (forall pre g post,
        files = pre ++ g :: post ->
        Forall (fun x => path_exists f x = true) pre ->
        path_exists f g = false ->
        find_latest_csv glob_match f directory pattern = Raise (no_such_file g)).
Proof.
  intros files. split; [split|].
  - intros [r Hr].
    destruct (first_missing f files) as [Hall|(pre & g & post & D & P & G)];
      [exact Hall|].
    rewrite (find_latest_csv_raises glob_match f directory pattern pre post g)
      in Hr; auto. discriminate.
  - intros Hall. destruct files as [|x l] eqn:E.
    + exists None. unfold find_latest_csv. fold files. now rewrite E.
    + destruct (find_latest_csv_first_latest glob_match f directory pattern)
        as (r & _ & _ & Hr & _).
      { fold files. rewrite E. discriminate. }
      { fold files. rewrite E. exact Hall. }
      eauto.
  - intros pre g post D P G.
    now apply (find_latest_csv_raises glob_match f directory pattern pre post g).
Qed.

(** X3. [check_file_exists] decides within a snapshot without raising: it
    is [True] exactly for an existing path whose size is not zero, be it a
    regular file or a directory. *)
Theorem check_file_exists_decides (f : FS) (filepath : str) :
  exists b,
    check_file_exists f filepath = Ok b
    /\ (b = true <-> exists n, lookup f filepath = Some n /\ st_size_of n <> 0).
Proof.
  unfold check_file_exists, path_exists, getsize.
  destruct (lookup f filepath) as [n|] eqn:L; simpl.
  - destruct (Nat.eqb (st_size_of n) 0) eqn:E; eexists; (split; [reflexivity|]).
    + apply Nat.eqb_eq in E. split; [discriminate|].
      intros (n' & Hn & Hs). congruence.
    + apply Nat.eqb_neq in E. split; [eauto|reflexivity].
  - exists false. split; [reflexivity|]. split; [discriminate|].
    intros (n' & Hn & _). discriminate.
Qed.

(** The callable leaves the filesystem, the store and the clocks alone, and
    a call that raises leaves the whole world as it was. *)
Lemma check_for_new_csv_world (context : Context) (w : World)
    (r : Result XVal) (w' : World) :
  check_for_new_csv glob_match cfg context w = (r, w') ->
  (exists e, r = Raise e /\ w' = w)
  \/ exists p n,
       r = Ok (XStr p)
       /\ find_latest_csv glob_match (fs w) (INCOMING_DATA_DIR cfg)
                          (CSV_FILE_PATTERN cfg) = Ok (Some p)
       /\ lookup (fs w) p = Some n
       /\ st_size_of n <> 0
       /\ w' = set_xcom w ((ti_task_id context, "csv_file_path" : str, XStr p) :: xcom w).
Proof.
  intros H.
  unfold check_for_new_csv, locate_candidate, bind, read_fs in H.
  destruct (find_latest_csv_cases glob_match (fs w) (INCOMING_DATA_DIR cfg)
              (CSV_FILE_PATTERN cfg)) as [Hf|[(p & n & Hf & L)|(g & _ & _ & Hf)]];
    rewrite Hf in H.
  - left. unfold raise in H. inversion H; subst. eauto.
  - unfold ret, validate_candidate, bind, read_fs, check_file_exists,
      path_exists, getsize in H.
    cbv beta in H. rewrite L in H. simpl in H.
    destruct (st_size_of n =? 0) eqn:Hs; simpl in H.
    + left. inversion H; subst. eauto.
    + rewrite L in H. unfold xcom_push in H. simpl in H.
      right. exists p, n. inversion H; subst.
      apply Nat.eqb_neq in Hs. auto.
  - left. inversion H; subst. eauto.
Qed.

Lemma check_for_new_csv_returns (context : Context) (w : World) (p : str)
    (size : nat) :
  find_latest_csv glob_match (fs w) (INCOMING_DATA_DIR cfg) (CSV_FILE_PATTERN cfg)
  = Ok (Some p) ->
  getsize (fs w) p = Ok (S size) ->
  check_for_new_csv glob_match cfg context w
  = (Ok (XStr p),
     set_xcom w ((ti_task_id context, "csv_file_path" : str, XStr p) :: xcom w)).
Proof.
  intros Hf Hs.
  unfold check_for_new_csv, locate_candidate, bind, read_fs.
  rewrite Hf. unfold ret, validate_candidate, bind, read_fs,
    check_file_exists, path_exists.
  unfold getsize in *. cbv beta.
  destruct (lookup (fs w) p) as [n|] eqn:L; [|discriminate].
  inversion Hs as [Hn]. simpl. rewrite Hn. simpl. rewrite L.
  reflexivity.
Qed.

(** X4. [check_for_new_csv] only observes: in every outcome the
    filesystem, the store and the clocks are those of the start, and when it
    raises nothing is published, the world is unchanged. *)
Theorem check_for_new_csv_only_observes (context : Context) (w : World)
    (r : Result XVal) (w' : World) :
  check_for_new_csv glob_match cfg context w = (r, w') ->
  fs w' = fs w /\ store w' = store w /\ time w' = time w /\ now w' = now w
  /\ (forall e, r = Raise e -> w' = w).
Proof.
  intros H. apply check_for_new_csv_world in H.
  destruct H as [(e & -> & ->)|(p & n & -> & _ & _ & _ & ->)].
  - auto.
  - repeat split; auto. discriminate.
Qed.

(** X5. [check_for_new_csv] returns exactly when the search selects a file
    of non-zero size.  It then returns the selected path, and a pull of
    [csv_file_path] from the task that ran it reads that path back. *)
Theorem check_for_new_csv_hands_over (context : Context) (w : World) (p : str) :
  ((exists w', check_for_new_csv glob_match cfg context w = (Ok (XStr p), w'))
   <-> (find_latest_csv glob_match (fs w) (INCOMING_DATA_DIR cfg)
                        (CSV_FILE_PATTERN cfg) = Ok (Some p)
        /\ exists size, getsize (fs w) p = Ok (S size)))
  /\ (forall w',
        check_for_new_csv glob_match cfg context w = (Ok (XStr p), w') ->
        xcom_pull (ti_task_id context) "csv_file_path" w' = (Ok (XStr p), w')).
Proof.
  split; [split|].
  - intros [w' H].
    apply check_for_new_csv_world in H.
    destruct H as [(e & He & _)|(p' & n & Hp & Hf & L & Hs & _)];
      [discriminate|].
    inversion Hp; subst p'. split; [exact Hf|].
    unfold getsize. rewrite L. destruct (st_size_of n); [congruence|eauto].
  - intros [Hf [size Hs]].
    rewrite (check_for_new_csv_returns context w p size Hf Hs). eauto.
  - intros w' H'. apply check_for_new_csv_world in H'.
    destruct H' as [(e & He & _)|(p' & n & Hp & _ & _ & _ & ->)];
      [discriminate|].
    inversion Hp; subst p'.
    unfold xcom_pull. simpl. now rewrite !str_eqb_refl.
Qed.

End SearchMore.

Lemma check_for_new_csv_only_observes_witness :
  fs world_found = fs world_demo
  /\ store world_found = store world_demo
  /\ time world_found = time world_demo
  /\ now world_found = now world_demo
  /\ (forall e,
        Ok (XStr "/data/in/routes_b.csv") = Raise e -> world_found = world_demo).
Proof.
  apply (check_for_new_csv_only_observes wildcard cfg_demo ctx_check world_demo
           (Ok (XStr "/data/in/routes_b.csv")) world_found).
  vm_compute. reflexivity.
Defined.

(* ================================================================== *)
(** ** More on the load *)

Lemma table_rows_append_other (t : Tables) (name other : str) (b : list Row) :
  other <> name ->
  table_rows (append_rows t name b) other = table_rows t other.
Proof.
  intros Hne. induction t as [|[n rows] rest IH]; simpl; [reflexivity|].
  destruct (str_eqb n name) eqn:E; simpl.
  - apply str_eqb_eq in E. subst n.
    destruct (str_eqb name other) eqn:E'; [|reflexivity].
    apply str_eqb_eq in E'. congruence.
  - destruct (str_eqb n other); [reflexivity|exact IH].
Qed.

Lemma table_rows_with_table (t : Tables) (name other : str) :
  table_rows (with_table t name) other = table_rows t other.
Proof.
  unfold with_table. destruct (has_table t name) eqn:E; [reflexivity|].
  induction t as [|[n rows] rest IH]; simpl in *.
  - destruct (str_eqb name other); reflexivity.
  - destruct (str_eqb n name) eqn:En; simpl in E; [discriminate|].
    destruct (str_eqb n other); [reflexivity|]. now apply IH.
Qed.

Section LoadMore.

Variable read_csv : str -> Result DataFrame.
Variable store_rejects : list Row -> list Row -> bool.
Variable cfg : Config.

Local Abbreviation load := (load_csv_to_mysql read_csv store_rejects cfg).
Local Abbreviation raw := (MYSQL_RAW_TABLE cfg).

(** The rows of the raw table after a call: those before when it raises,
    those before followed by the frame of the file when it returns. *)
Lemma load_rows (context : Context) (w : World) (r : Result XVal) (w' : World) :
  load context w = (r, w') ->
  fs w' = fs w /\ xcom w' = xcom w /\ time w' = time w /\ now w' = now w
  /\ reachable (store w') = reachable (store w)
  /\ (forall other, other <> raw ->
        table_rows (tables (store w')) other = table_rows (tables (store w)) other)
  /\ match r with
     | Raise _ => table_rows (tables (store w')) raw = table_rows (tables (store w)) raw
     | Ok v =>
         exists p m bytes df,
           xcom_get (xcom w) "check_new_data" "csv_file_path" = XStr p
           /\ lookup (fs w) p = Some (File m bytes)
           /\ read_csv bytes = Ok df
           /\ v = XInt (List.length df)
           /\ table_rows (tables (store w')) raw
              = table_rows (tables (store w)) raw ++ df
     end.
Proof.
  intros H. apply load_csv_to_mysql_cases in H.
  destruct (with_table_rows (tables (store w)) raw) as [Hrows Hhas].
  destruct H as [[-> [ex ->]]
                |(p & m & bytes & df & e & Hx & Hl & Hread & Hr
                  & [[-> ->]|[[ex ->] ->]])].
  - do 5 (split; [reflexivity|]). split; reflexivity.
  - do 4 (split; [reflexivity|]). split; [exact (eq_sym Hr)|]. split.
    + intros other Hne. cbn [store set_store tables].
      now rewrite table_rows_append_other, table_rows_with_table.
    + exists p, m, bytes, df. do 4 (split; [auto|]).
      cbn [store set_store tables]. now rewrite table_rows_append, Hrows.
  - do 4 (split; [reflexivity|]). split; [exact (eq_sym Hr)|]. split.
    + intros other Hne. cbn [store set_store tables].
      now rewrite table_rows_with_table.
    + cbn [store set_store tables]. exact Hrows.
Qed.

(** X6. [load_csv_to_mysql] reads the file and writes the raw table and
    nothing else: in every outcome the filesystem, the XCom entries and the
    clocks are those of the start, and so are the rows of every other
    table. *)
Theorem load_touches_only_the_raw_table (context : Context) (w : World)
    (r : Result XVal) (w' : World) :
  load context w = (r, w') ->
  fs w' = fs w /\ xcom w' = xcom w /\ time w' = time w /\ now w' = now w
  /\ forall other, other <> raw ->
       table_rows (tables (store w')) other = table_rows (tables (store w)) other.
Proof.
  intros H. apply load_rows in H. tauto.
Qed.

(** X7. When [check_new_data] has pushed no path, [load_csv_to_mysql]
    raises before it opens a connection and leaves the world as it was,
    while [archive_processed_csv] returns [None]. *)
Theorem nothing_handed_over (context : Context) (w : World) :
  xcom_get (xcom w) "check_new_data" "csv_file_path" = XNone ->
  (exists msg, load context w = (Raise (ValueError msg), w))
  /\ archive_processed_csv cfg context w = (Ok XNone, w).
Proof.
  intros Hx. split.
  - unfold load_csv_to_mysql, bind, xcom_pull, pd_read_csv. rewrite Hx. eauto.
  - unfold archive_processed_csv, bind, xcom_pull. now rewrite Hx.
Qed.

End LoadMore.

Lemma load_touches_only_the_raw_table_witness :
  fs world_rolled_back = fs (world_loading 3)
  /\ xcom world_rolled_back = xcom (world_loading 3)
  /\ time world_rolled_back = time (world_loading 3)
  /\ now world_rolled_back = now (world_loading 3)
  /\ forall other, other <> MYSQL_RAW_TABLE dbt_config ->
       table_rows (tables (store world_rolled_back)) other
       = table_rows (tables (store (world_loading 3))) other.
Proof.
  apply (load_touches_only_the_raw_table read_10001_rows reject_short dbt_config
           ctx_load (world_loading 3) (Raise (DatabaseError "INSERT failed"))
           world_rolled_back).
  vm_compute. reflexivity.
Defined.

Lemma nothing_handed_over_witness :
  (exists msg,
      load_csv_to_mysql rows_by_line accept_all dbt_config ctx_load world_demo
      = (Raise (ValueError msg), world_demo))
  /\ archive_processed_csv dbt_config ctx_load world_demo = (Ok XNone, world_demo).
Proof.
  apply (nothing_handed_over rows_by_line accept_all dbt_config ctx_load world_demo).
  reflexivity.
Defined.

(* ================================================================== *)
(** ** More on the archiving *)

Lemma rfind_absent (c : ascii) (x : str) : ~ In c x -> rfind c x = None.
Proof.
  induction x as [|y x IH]; simpl; [reflexivity|].
  intros H. rewrite IH by tauto.
  destruct (is_char y c) eqn:E; [|reflexivity].
  apply is_char_eq in E. subst y. tauto.
Qed.

Lemma rfind_last (c : ascii) (a x : str) :
  ~ In c x -> rfind c (a ++ c :: x) = Some (List.length a).
Proof.
  intros H. induction a as [|y a IH]; simpl.
  - rewrite (rfind_absent c x H).
    unfold is_char. now rewrite Ascii.eqb_refl.
  - now rewrite IH.
Qed.

Lemma basename_after_sep (a x : str) :
  ~ In sep x -> basename (a ++ sep :: x) = x.
Proof.
  intros H. unfold basename. rewrite (rfind_last sep a x H).
  change (S (List.length a)) with (1 + List.length a).
  rewrite <- skipn_skipn. rewrite skipn_app, Nat.sub_diag, skipn_all.
  reflexivity.
Qed.

Lemma endswith_true (d : str) (c : ascii) :
  endswith d c = true -> exists d', d = d' ++ [c].
Proof.
  unfold endswith. destruct (rev d) as [|x r] eqn:E; [discriminate|].
  intros H. apply is_char_eq in H. subst x.
  exists (rev r). rewrite <- (rev_involutive d), E. reflexivity.
Qed.

Lemma basename_path_join (d x : str) :
  ~ In sep x -> basename (path_join d x) = x.
Proof.
  intros H. unfold path_join. rewrite (startswith_absent x sep H).
  destruct d as [|y d]; simpl orb.
  - simpl. unfold basename. now rewrite (rfind_absent sep x H).
  - destruct (endswith (y :: d) sep) eqn:E.
    + apply endswith_true in E. destruct E as [d' ->].
      rewrite <- app_assoc. now apply basename_after_sep.
    + now apply basename_after_sep.
Qed.

Lemma path_join_longer (d x : str) :
  ~ In sep x -> List.length d + List.length x <= List.length (path_join d x).
Proof.
  intros H. unfold path_join. rewrite (startswith_absent x sep H).
  destruct (_ || _); rewrite length_app; simpl; lia.
Qed.

Lemma stamped_length (f t : str) :
  List.length (stamped f t) = List.length f + 1 + List.length t.
Proof.
  unfold stamped. destruct (splitext_spec f) as [D _].
  destruct (splitext f) as [name ext]. simpl in D.
  rewrite D. cbn [list_ascii_of_string app].
  rewrite !length_app. cbn [List.length]. rewrite !length_app. lia.
Qed.

(** An entry appended under a name that is not listed. *)
Lemma entry_of_added (f : FS) (p q : str) (e : Entry) :
  entry_of f p = None ->
  entry_of (f ++ [(p, e)]) q = if str_eqb p q then Some e else entry_of f q.
Proof.
  intros Hp. rewrite entry_of_app. simpl.
  destruct (str_eqb p q) eqn:E.
  - apply str_eqb_eq in E. subst q. now rewrite Hp.
  - now destruct (entry_of f q).
Qed.

Lemma rename_file (f : FS) (src dst : str) (m : Z) (b : str) :
  lookup f src = Some (File m b) ->
  src <> dst ->
  lookup (rename f src dst) src = None
  /\ lookup (rename f src dst) dst = Some (File m b)
  /\ forall q, q <> src -> q <> dst -> lookup (rename f src dst) q = lookup f q.
Proof.
  intros Hs Hne. unfold rename. apply lookup_entry in Hs. rewrite Hs.
  assert (Hd : entry_of (remove (remove f src) dst) dst = None)
    by apply entry_of_remove_same.
  unfold lookup. repeat split.
  - rewrite (entry_of_added _ _ _ _ Hd).
    destruct (str_eqb dst src) eqn:E.
    + apply str_eqb_eq in E. congruence.
    + now rewrite entry_of_remove_other, entry_of_remove_same by exact Hne.
  - rewrite (entry_of_added _ _ _ _ Hd). now rewrite str_eqb_refl.
  - intros q H1 H2. rewrite (entry_of_added _ _ _ _ Hd).
    destruct (str_eqb dst q) eqn:E.
    + apply str_eqb_eq in E. congruence.
    + now rewrite !entry_of_remove_other by assumption.
Qed.

Lemma makedirs_makes (d : str) (w w1 : World) :
  makedirs d w = (Ok tt, w1) ->
  store w1 = store w /\ xcom w1 = xcom w /\ now w1 = now w
  /\ path_isdir (fs w1) d = true
  /\ (forall q n, lookup (fs w) q = Some n -> lookup (fs w1) q = Some n)
  /\ (forall q, q <> d -> lookup (fs w1) q = lookup (fs w) q).
Proof.
  unfold makedirs, path_isdir. intros H.
  destruct (entry_of (fs w) d) as [[[m b|m s]|]|] eqn:L; inversion H; subst.
  - unfold lookup. rewrite L. auto 10.
  - simpl. repeat split; auto.
    + unfold lookup. rewrite (entry_of_added _ _ _ _ L). now rewrite str_eqb_refl.
    + intros q n Hq. now apply lookup_app_some.
    + intros q Hq. unfold lookup. rewrite (entry_of_added _ _ _ _ L).
      destruct (str_eqb d q) eqn:E; [|reflexivity].
      apply str_eqb_eq in E. congruence.
Qed.

Lemma shutil_move_world (src dst : str) (w w' : World) (r : Result unit) :
  shutil_move src dst w = (r, w') ->
  store w' = store w /\ xcom w' = xcom w.
Proof.
  unfold shutil_move. intros H.
  destruct (path_isdir (fs w) dst).
  - destruct (str_eqb src dst); [now inversion H|].
    destruct (path_exists (fs w) _); now inversion H.
  - destruct (entry_of (fs w) src) as [[[m b|m s]|]|];
      destruct (entry_of (fs w) dst) as [e|]; now inversion H.
Qed.

(** After a move that returns, a regular file is gone from its source. *)
Lemma shutil_move_source_gone (src dst : str) (w w' : World) (m : Z) (b : str) :
  shutil_move src dst w = (Ok tt, w') ->
  lookup (fs w) src = Some (File m b) ->
  src <> dst ->
  lookup (fs w') src = None.
Proof.
  intros H Hs Hne. unfold shutil_move in H.
  destruct (path_isdir (fs w) dst).
  - apply str_eqb_neq in Hne. rewrite Hne in H.
    destruct (path_exists (fs w) _) eqn:He; [discriminate|].
    inversion H; subst. simpl.
    apply (rename_file _ _ _ m b Hs).
    intros E. rewrite <- E in He. unfold path_exists in He. now rewrite Hs in He.
  - pose proof Hs as Hs'. apply lookup_entry in Hs'. rewrite Hs' in H.
    inversion H; subst. simpl.
    now apply (rename_file _ _ _ m b Hs).
Qed.

(** The destination of [move_file] is neither the source nor the
    destination directory, and its last component is the stamped name. *)
Lemma move_file_destination (source destination_dir : str) (w w' : World)
    (destination : str) :
  datetime_ok (now w) = true ->
  move_file source destination_dir w = (Ok destination, w') ->
  basename destination = stamped (basename source) (strftime (now w))
  /\ destination <> source
  /\ destination <> destination_dir
  /\ in_dir destination_dir destination = true.
Proof.
  intros Hok H. destruct (move_file_steps _ _ _ _ _ H) as [Hd _].
  pose proof (stamped_no_sep source _ (strftime_shape _ Hok)) as Hns.
  pose proof (basename_path_join destination_dir _ Hns) as Hb.
  rewrite <- Hd in Hb.
  pose proof (stamped_length (basename source) (strftime (now w))) as Hl.
  split; [exact Hb|]. split; [|split].
  - intros E. rewrite E in Hb. rewrite <- Hb in Hl. lia.
  - intros E. pose proof (path_join_longer destination_dir _ Hns) as Hlen.
    rewrite <- Hd, E in Hlen. lia.
  - unfold in_dir. rewrite Hb.
    destruct (stamped (basename source) (strftime (now w))) as [|c s] eqn:Es.
    + simpl in Hl. lia.
    + rewrite <- Hd. apply str_eqb_refl.
Qed.







Section ArchiveMore.

Variable cfg : Config.


(** X9. Archiving twice: after a call of [archive_processed_csv] that
    returns for a regular file, a second call, in the world the first one
    left, returns [None] and changes nothing. *)
Theorem archive_twice_is_benign (context context' : Context) (w w' : World)
    (v : XVal) (p : str) (m : Z) (bytes : str) :
  datetime_ok (now w) = true ->
  xcom_get (xcom w) "check_new_data" "csv_file_path" = XStr p ->
  lookup (fs w) p = Some (File m bytes) ->
  archive_processed_csv cfg context w = (Ok v, w') ->
  archive_processed_csv cfg context' w' = (Ok XNone, w').
Proof.
  intros Hok Hx Hs H.
  unfold archive_processed_csv, bind, xcom_pull in H. rewrite Hx in H.
  destruct (truthy (XStr p) && path_exists (fs w) p) eqn:Ht.
  - destruct (move_file p (PROCESSED_DATA_DIR cfg) w) as [[d|e] w1] eqn:Em;
      [|discriminate].
    unfold ret in H. inversion H; subst v w1.
    destruct (move_file_destination _ _ _ _ _ Hok Em) as (_ & Hne & _).
    destruct (move_file_steps _ _ _ _ _ Em) as [_ [w1 [Hm Hmv]]].
    destruct (makedirs_makes _ _ _ Hm) as (_ & Hx1 & _ & _ & Hkeep & _).
    destruct (shutil_move_world _ _ _ _ _ Hmv) as [_ Hx'].
    apply (archive_gone cfg context' w' p).
    + now rewrite Hx', Hx1.
    + unfold path_exists.
      rewrite (shutil_move_source_gone _ _ _ _ m bytes Hmv); auto.
  - inversion H; subst.
    unfold archive_processed_csv, bind, xcom_pull. now rewrite Hx, Ht.
Qed.

End ArchiveMore.


Lemma archive_twice_is_benign_witness :
  archive_processed_csv cfg_demo ctx_archive world_archived
  = (Ok XNone, world_archived).
Proof.
  apply (archive_twice_is_benign cfg_demo ctx_archive ctx_archive world_found
           world_archived (XStr "/data/processed/routes_b_20251114_093000.csv")
           "/data/in/routes_b.csv" 300 "id,o,d").
  - reflexivity.
  - reflexivity.
  - reflexivity.
  - vm_compute. reflexivity.
Defined.

(* ================================================================== *)
(** ** More on the run of the DAG *)

Lemma ran_iff (st : States) (id : str) : ran st id <-> ran_b st id = true.
Proof.
  unfold ran, ran_b. destruct (state_of st id) as [[]|]; split;
    intros; try reflexivity; try discriminate; auto;
    destruct H; discriminate.
Qed.

Section RunMore.

Variable run_bash : str -> M unit.
Variable elapse : World -> World.

Lemma execute_python (id : str) (f : Context -> M XVal) (w : World) :
  exists x,
    snd (execute run_bash id (PythonOperator f) w)
    = set_xcom (snd (f (mkContext id) w)) x
    /\ (fst (execute run_bash id (PythonOperator f) w) = Ok tt
        <-> exists v, fst (f (mkContext id) w) = Ok v).
Proof.
  unfold execute, bind.
  destruct (f (mkContext id) w) as [[v|e] w1]; simpl.
  - destruct v; simpl.
    + exists (xcom w1). split; [now destruct w1|]. split; eauto.
    + eexists. split; [reflexivity|]. split; eauto.
    + eexists. split; [reflexivity|]. split; eauto.
  - exists (xcom w1). split; [now destruct w1|].
    split; [discriminate|]. intros [v H]. discriminate.
Qed.

Lemma run_task_state (retries : nat) (id : str) (op : Operator) (w : World) :
  fst (run_task run_bash elapse retries id op w) = success
  \/ fst (run_task run_bash elapse retries id op w) = failed.
Proof.
  revert w. induction retries as [|k IH]; intros w; simpl;
    destruct (execute run_bash id op w) as [[[]|e] w1]; simpl; auto.
Qed.

Lemma run_task_preserves (P : World -> Prop) (id : str) (op : Operator) :
  (forall w, P w -> P (elapse w)) ->
  (forall w, P w -> P (snd (execute run_bash id op w))) ->
  forall retries w, P w -> P (snd (run_task run_bash elapse retries id op w)).
Proof.
  intros He Hx. induction retries as [|k IH]; intros w Hw; simpl;
    specialize (Hx w Hw);
    destruct (execute run_bash id op w) as [[[]|e] w1]; simpl in *; auto.
Qed.

Lemma state_of_app (st : States) (id x : str) (s : TaskState) :
  state_of (st ++ [(id, s)]) x
  = match state_of st x with
    | Some t => Some t
    | None => if str_eqb id x then Some s else None
    end.
Proof.
  induction st as [|[i t] st IH]; simpl; [reflexivity|].
  destruct (str_eqb i x); auto.
Qed.

Lemma find_ready_fresh (d : DAG) (st : States) (id : str) :
  find_ready d st = Some id -> state_of st id = None.
Proof.
  unfold find_ready.
  destruct (filter _ (map task_id (dag_tasks d))) as [|x l] eqn:E; [discriminate|].
  intros H. inversion H; subst x.
  assert (Hin : In id (id :: l)) by now left.
  rewrite <- E in Hin. apply filter_In in Hin. destruct Hin as [_ Hin].
  apply andb_true_iff in Hin. destruct Hin as [Hin _].
  unfold has_state in Hin. now destruct (state_of st id).
Qed.

Lemma ran_app (st : States) (id x : str) (s : TaskState) :
  ran st x -> ran (st ++ [(id, s)]) x.
Proof.
  unfold ran. rewrite state_of_app. intros [H|H]; rewrite H; auto.
Qed.

(** What holds of the world at the start and is kept by the environment
    and by every task but [x] holds at the end of a run, unless [x] was
    run. *)
Lemma schedule_preserves_unless (P : World -> Prop) (d : DAG) (x : str) :
  (forall w, P w -> P (elapse w)) ->
  (forall id op w,
      operator_of (dag_tasks d) id = Some op -> id <> x ->
      P w -> P (snd (execute run_bash id op w))) ->
  forall fuel st w,
    P w \/ ran st x ->
    P (snd (schedule run_bash elapse fuel d st w))
    \/ ran (fst (schedule run_bash elapse fuel d st w)) x.
Proof.
  intros He Hx. induction fuel as [|k IH]; intros st w H; simpl; [exact H|].
  destruct (find_ready d st) as [id|] eqn:Hf; [|exact H].
  destruct (forallb (succeeded st) (upstream d id)).
  - destruct (operator_of (dag_tasks d) id) as [op|] eqn:Ho; [|exact H].
    destruct (run_task run_bash elapse (dag_retries d) id op w) as [s w'] eqn:R.
    apply IH. destruct H as [H|H].
    + destruct (list_eq_dec ascii_dec id x) as [->|Hne].
      * right. unfold ran. rewrite state_of_app, (find_ready_fresh d st x Hf).
        rewrite str_eqb_refl.
        pose proof (run_task_state (dag_retries d) x op w) as Hs.
        rewrite R in Hs. simpl in Hs. destruct Hs as [-> | ->]; auto.
      * left. apply He.
        pose proof (run_task_preserves P id op He (fun w0 => Hx id op w0 Ho Hne)
                      (dag_retries d) w H) as Hp.
        now rewrite R in Hp.
    + right. now apply ran_app.
  - apply IH. destruct H as [H|H]; [now left|right; now apply ran_app].
Qed.

Lemma operator_of_In (ts : list Task) (id : str) (op : Operator) :
  operator_of ts id = Some op ->
  exists t, In t ts /\ task_id t = id /\ operator t = op.
Proof.
  induction ts as [|t ts IH]; simpl; [discriminate|].
  destruct (str_eqb (task_id t) id) eqn:E.
  - intros H. inversion H. apply str_eqb_eq in E. eauto.
  - intros H. destruct (IH H) as (t' & Hin & Hid & Hop). eauto.
Qed.

End RunMore.

Section DagMore.

Variable glob_match : str -> str -> bool.
Variable read_csv : str -> Result DataFrame.
Variable store_rejects : list Row -> list Row -> bool.
Variable run_bash : str -> M unit.
Variable cfg : Config.
Variable elapse : World -> World.

Local Abbreviation the_dag := (dag glob_match read_csv store_rejects cfg).
Local Abbreviation run := (dag_run run_bash elapse the_dag).

Lemma schedule_step (k : nat) (d : DAG) (st : States) (w : World)
    (id : str) (op : Operator) (b : bool) :
  find_ready d st = Some id ->
  operator_of (dag_tasks d) id = Some op ->
  forallb (succeeded st) (upstream d id) = b ->
  schedule run_bash elapse (S k) d st w
  = if b then
      schedule run_bash elapse k d
        (st ++ [(id, fst (run_task run_bash elapse (dag_retries d) id op w))])
        (elapse (snd (run_task run_bash elapse (dag_retries d) id op w)))
    else schedule run_bash elapse k d (st ++ [(id, upstream_failed)]) w.
Proof.
  intros H1 H2 H3. simpl. rewrite H1, H2, H3.
  now destruct (run_task run_bash elapse (dag_retries d) id op w).
Qed.

Ltac dag_skip :=
  erewrite schedule_step;
  [ | vm_compute; reflexivity | reflexivity | vm_compute; reflexivity ];
  cbv iota; cbn [app].

Ltac dag_try :=
  dag_skip;
  match goal with
  | |- context [run_task ?b ?e ?r ?id ?op ?w] =>
      let s := fresh "s" in
      let w1 := fresh "w" in
      let R := fresh "R" in
      let Hs := fresh "Hs" in
      pose proof (run_task_state b e r id op w) as Hs;
      destruct (run_task b e r id op w) as [s w1] eqn:R;
      cbn [fst snd] in *;
      destruct Hs as [Hs|Hs]; subst s
  end.

(** The states at the end of a run: successes in the order of the
    definition of the tasks, then at most one failure, then tasks that were
    not run. *)
Lemma dag_run_prefix (w : World) :
  exists k, k <= 10
    /\ fst (run w) = outcome (map task_id (dag_tasks the_dag)) k.
Proof.
  unfold dag_run. change (List.length (dag_tasks the_dag)) with 10.
  dag_try; [|do 9 dag_skip; exists 0; split; [lia|reflexivity]].
  dag_try; [|do 8 dag_skip; exists 1; split; [lia|reflexivity]].
  dag_try; [|do 7 dag_skip; exists 2; split; [lia|reflexivity]].
  dag_try; [|do 6 dag_skip; exists 3; split; [lia|reflexivity]].
  dag_try; [|do 5 dag_skip; exists 4; split; [lia|reflexivity]].
  dag_try; [|do 4 dag_skip; exists 5; split; [lia|reflexivity]].
  dag_try; [|do 3 dag_skip; exists 6; split; [lia|reflexivity]].
  dag_try; [|do 2 dag_skip; exists 7; split; [lia|reflexivity]].
  dag_try; [|do 1 dag_skip; exists 8; split; [lia|reflexivity]].
  dag_try; [|exists 9; split; [lia|reflexivity]].
  exists 10. split; [lia|reflexivity].
Qed.

(** X10. The states at the end of every run: the tasks succeed in the
    order of their definition up to some task, that task, if any, has
    failed, and the tasks after it were not run. *)
Theorem dag_run_outcome (w : World) :
  exists k, k <= 10
    /\ fst (run w) = outcome (map task_id (dag_tasks the_dag)) k.
Proof. apply dag_run_prefix. Qed.

(** A test passed by each of the eleven possible outcomes is passed by the
    states of every run. *)
Lemma dag_run_passes (f : States -> bool) (w : World) :
  forallb (fun k => f (outcome (map task_id (dag_tasks the_dag)) k)) (seq 0 11) = true ->
  f (fst (run w)) = true.
Proof.
  intros C. destruct (dag_run_prefix w) as (k & Hk & ->).
  rewrite forallb_forall in C. apply C. apply in_seq. lia.
Qed.

(** X11. The file is archived only after its rows are stored and
    transformed: in every run in which [archive_processed_csv] was run, the
    nine tasks before it have succeeded, and whenever the load was run,
    [check_new_data] has succeeded. *)
Theorem archive_runs_last (w : World) :
  (ran (fst (run w)) "archive_processed_csv" ->
   forall id, In id (removelast (map task_id (dag_tasks the_dag))) ->
     succeeded (fst (run w)) id = true)
  /\ (ran (fst (run w)) "load_raw_data_to_mysql" ->
      succeeded (fst (run w)) "check_new_data" = true).
Proof.
  split.
  - intros H. apply ran_iff in H.
    pose proof (dag_run_passes
      (fun st => implb (ran_b st "archive_processed_csv")
                   (forallb (succeeded st)
                      (removelast (map task_id (dag_tasks the_dag))))) w
      ltac:(vm_compute; reflexivity)) as C.
    cbv beta in C. rewrite H, Bool.implb_true_l in C.
    exact (proj1 (forallb_forall _ _) C).
  - intros H. apply ran_iff in H.
    pose proof (dag_run_passes
      (fun st => implb (ran_b st "load_raw_data_to_mysql")
                   (succeeded st "check_new_data")) w
      ltac:(vm_compute; reflexivity)) as C.
    cbv beta in C. now rewrite H, Bool.implb_true_l in C.
Qed.

Lemma dag_task_cases (t : Task) :
  In t (dag_tasks the_dag) ->
  t = check_new_data glob_match cfg
  \/ t = load_raw_data read_csv store_rejects cfg
  \/ (exists cmd, operator t = BashOperator cmd)
  \/ t = archive_csv cfg.
Proof.
  intros H. simpl in H.
  decompose [or] H; subst; auto; try (right; right; left; eexists; reflexivity).
  contradiction.
Qed.

Lemma execute_check_world (id : str) (w : World) :
  fs (snd (execute run_bash id (PythonOperator (check_for_new_csv glob_match cfg)) w))
  = fs w
  /\ store (snd (execute run_bash id
                   (PythonOperator (check_for_new_csv glob_match cfg)) w))
     = store w.
Proof.
  destruct (execute_python run_bash id (check_for_new_csv glob_match cfg) w)
    as [x [-> _]].
  destruct (check_for_new_csv glob_match cfg (mkContext id) w) as [r w1] eqn:E.
  apply check_for_new_csv_world in E.
  destruct E as [(e & _ & ->)|(p & n & _ & _ & _ & _ & ->)]; auto.
Qed.

Lemma execute_load_world (id : str) (w : World) :
  fs (snd (execute run_bash id
             (PythonOperator (load_csv_to_mysql read_csv store_rejects cfg)) w))
  = fs w
  /\ exists extra,
       raw_rows cfg (snd (execute run_bash id
                        (PythonOperator (load_csv_to_mysql read_csv store_rejects cfg))
                        w))
       = raw_rows cfg w ++ extra.
Proof.
  unfold raw_rows.
  destruct (execute_python run_bash id
              (load_csv_to_mysql read_csv store_rejects cfg) w) as [x [-> _]].
  destruct (load_csv_to_mysql read_csv store_rejects cfg (mkContext id) w)
    as [r w1] eqn:E.
  apply load_rows in E. destruct E as (Hfs & _ & _ & _ & _ & _ & Hr).
  split; [exact Hfs|]. cbn [snd set_xcom store].
  destruct r as [v|e].
  - destruct Hr as (p & m & bytes & df & _ & _ & _ & _ & Hrows). eauto.
  - exists []. now rewrite app_nil_r.
Qed.

Lemma archive_store (context : Context) (w : World) :
  store (snd (archive_processed_csv cfg context w)) = store w.
Proof.
  unfold archive_processed_csv, bind, xcom_pull.
  destruct (xcom_get (xcom w) "check_new_data" "csv_file_path") as [|p|n];
    try reflexivity.
  destruct (truthy (XStr p) && path_exists (fs w) p); [|reflexivity].
  unfold move_file. destruct (negb (path_exists (fs w) p)); [reflexivity|].
  unfold bind.
  destruct (makedirs (PROCESSED_DATA_DIR cfg) w) as [[[]|e] w1] eqn:Em.
  - assert (Hst : store w1 = store w).
    { unfold makedirs in Em.
      destruct (entry_of (fs w) (PROCESSED_DATA_DIR cfg)) as [[[]|]|];
        inversion Em; reflexivity. }
    unfold datetime_now.
    destruct (splitext (basename p)) as [name ext].
    destruct (shutil_move p _ w1) as [[[]|e] w2] eqn:Es;
      apply shutil_move_world in Es; destruct Es as [Hs _];
      simpl; congruence.
  - unfold makedirs in Em.
    destruct (entry_of (fs w) (PROCESSED_DATA_DIR cfg)) as [[[]|]|];
      inversion Em; reflexivity.
Qed.

Lemma execute_archive_store (id : str) (w : World) :
  store (snd (execute run_bash id (PythonOperator (archive_processed_csv cfg)) w))
  = store w.
Proof.
  destruct (execute_python run_bash id (archive_processed_csv cfg) w)
    as [x [-> _]].
  cbn [store set_xcom]. apply archive_store.
Qed.

(** X12. Only the archiving moves files.  When the environment and the
    shell commands leave the filesystem alone, every run in which
    [archive_processed_csv] was not run ends with the filesystem of its
    start: the search and the load read the file and leave it in place. *)
Theorem only_archiving_moves_files (w : World) :
  (forall w0, fs (elapse w0) = fs w0) ->
  (forall cmd w0, fs (snd (run_bash cmd w0)) = fs w0) ->
  ~ ran (fst (run w)) "archive_processed_csv" ->
  fs (snd (run w)) = fs w.
Proof.
  intros He Hb Hn.
  destruct (schedule_preserves_unless run_bash elapse (fun w0 => fs w0 = fs w)
              the_dag "archive_processed_csv") with
    (fuel := List.length (dag_tasks the_dag)) (st := @nil (str * TaskState)) (w := w)
    as [H|H]; auto.
  - intros w0 H0. now rewrite He.
  - intros id op w0 Ho Hne H0.
    apply operator_of_In in Ho. destruct Ho as (t & Hin & <- & <-).
    apply dag_task_cases in Hin.
    destruct Hin as [->|[->|[[cmd Hc]| ->]]].
    + rewrite <- H0. apply execute_check_world.
    + rewrite <- H0. apply execute_load_world.
    + rewrite Hc. simpl. now rewrite Hb.
    + now contradiction Hne.
  - contradiction.
Qed.

(** X13. Only the load writes the raw table, and it only appends.  When
    the environment and the shell commands leave the rows of the raw table
    alone, the rows at the start of a run are a prefix of the rows at its
    end, and they are all its rows when the load was not run. *)
Theorem raw_table_is_append_only (w : World) :
  (forall w0, raw_rows cfg (elapse w0) = raw_rows cfg w0) ->
  (forall cmd w0, raw_rows cfg (snd (run_bash cmd w0)) = raw_rows cfg w0) ->
  (exists extra, raw_rows cfg (snd (run w)) = raw_rows cfg w ++ extra)
  /\ (~ ran (fst (run w)) "load_raw_data_to_mysql" ->
      raw_rows cfg (snd (run w)) = raw_rows cfg w).
Proof.
  unfold raw_rows. intros He Hb. split.
  - destruct (schedule_preserves_unless run_bash elapse
                (fun w0 => exists extra,
                     table_rows (tables (store w0)) (MYSQL_RAW_TABLE cfg)
                     = table_rows (tables (store w)) (MYSQL_RAW_TABLE cfg) ++ extra)
                the_dag []) with
      (fuel := List.length (dag_tasks the_dag)) (st := @nil (str * TaskState))
      (w := w) as [H|H]; auto.
    + intros w0 [extra H0]. exists extra. now rewrite He.
    + intros id op w0 Ho _ [extra H0].
      apply operator_of_In in Ho. destruct Ho as (t & Hin & <- & <-).
      apply dag_task_cases in Hin.
      destruct Hin as [->|[->|[[cmd Hc]| ->]]].
      * exists extra. rewrite <- H0. f_equal. f_equal. apply execute_check_world.
      * destruct (execute_load_world
                    (task_id (load_raw_data read_csv store_rejects cfg)) w0)
          as [_ [more Hm]].
        exists (extra ++ more). rewrite app_assoc, <- H0. exact Hm.
      * exists extra. rewrite Hc. simpl. now rewrite Hb.
      * exists extra. rewrite <- H0. f_equal. f_equal. apply execute_archive_store.
    + left. exists []. now rewrite app_nil_r.
    + exfalso. apply ran_iff in H.
      pose proof (dag_run_passes (fun st => negb (ran_b st [])) w
                    ltac:(vm_compute; reflexivity)) as C.
      cbv beta in C. unfold dag_run in C. rewrite H in C. discriminate.
  - intros Hn.
    destruct (schedule_preserves_unless run_bash elapse
                (fun w0 => table_rows (tables (store w0)) (MYSQL_RAW_TABLE cfg)
                           = table_rows (tables (store w)) (MYSQL_RAW_TABLE cfg))
                the_dag "load_raw_data_to_mysql") with
      (fuel := List.length (dag_tasks the_dag)) (st := @nil (str * TaskState))
      (w := w) as [H|H]; auto.
    + intros w0 H0. now rewrite He.
    + intros id op w0 Ho Hne H0.
      apply operator_of_In in Ho. destruct Ho as (t & Hin & <- & <-).
      apply dag_task_cases in Hin.
      destruct Hin as [->|[->|[[cmd Hc]| ->]]].
      * rewrite <- H0. f_equal. f_equal. apply execute_check_world.
      * now contradiction Hne.
      * rewrite Hc. simpl. now rewrite Hb.
      * rewrite <- H0. f_equal. f_equal. apply execute_archive_store.
    + contradiction.
Qed.

Lemma xcom_get_pushed (x : XCom) (t k : str) (v : XVal) :
  xcom_get ((t, k, v) :: x) t k = v.
Proof. simpl. now rewrite !str_eqb_refl. Qed.

(** X14. The load task with its retries appends the file at most once.
    When the environment leaves the rows of the raw table alone, the task
    either fails with the rows of the raw table as they were at its start,
    or succeeds with the frame of one file appended once and the number of
    its rows pushed as the return value. *)
Theorem load_task_appends_at_most_once (retries : nat) (id : str)
    (w w' : World) (s : TaskState) :
  (forall w0, raw_rows cfg (elapse w0) = raw_rows cfg w0) ->
  run_task run_bash elapse retries id
           (PythonOperator (load_csv_to_mysql read_csv store_rejects cfg)) w
  = (s, w') ->
  (s = failed /\ raw_rows cfg w' = raw_rows cfg w)
  \/ (s = success
      /\ exists df,
           raw_rows cfg w' = raw_rows cfg w ++ df
           /\ xcom_get (xcom w') id "return_value" = XInt (List.length df)).
Proof.
  unfold raw_rows. intros He. revert w. induction retries as [|k IH]; intros w H;
    cbn [run_task execute] in H; unfold bind in H;
    destruct (load_csv_to_mysql read_csv store_rejects cfg (mkContext id) w)
      as [[v|e] w1] eqn:E;
    apply load_rows in E; destruct E as (_ & _ & _ & _ & _ & _ & Hr).
  - destruct Hr as (p & m & bytes & df & _ & _ & _ & -> & Hrows).
    unfold xcom_push in H. inversion H; subst. right. split; [reflexivity|].
    exists df. split; [exact Hrows|]. apply xcom_get_pushed.
  - inversion H; subst. now left.
  - destruct Hr as (p & m & bytes & df & _ & _ & _ & -> & Hrows).
    unfold xcom_push in H. inversion H; subst. right. split; [reflexivity|].
    exists df. split; [exact Hrows|]. apply xcom_get_pushed.
  - apply IH in H. rewrite He, Hr in H. exact H.
Qed.

(** X15. A file that arrives during the retry delay is picked up.  When
    the first try of [check_new_data] finds no usable file and the search
    after the delay selects a file of non-zero size, the task succeeds and
    has published that path for the tasks after it. *)
Theorem check_task_picks_up_late_file (w : World) (p : str) (size : nat) :
  no_usable_file glob_match cfg (fs w) ->
  find_latest_csv glob_match (fs (elapse w)) (INCOMING_DATA_DIR cfg)
                  (CSV_FILE_PATTERN cfg) = Ok (Some p) ->
  getsize (fs (elapse w)) p = Ok (S size) ->
  exists w',
    run_task run_bash elapse 1 "check_new_data"
             (PythonOperator (check_for_new_csv glob_match cfg)) w
    = (success, w')
    /\ xcom_pull "check_new_data" "csv_file_path" w' = (Ok (XStr p), w')
    /\ fs w' = fs (elapse w).
Proof.
  intros H1 Hf Hs.
  destruct (check_for_new_csv_aborts glob_match cfg (mkContext "check_new_data") w H1)
    as [e1 E1].
  pose proof (check_for_new_csv_returns glob_match cfg (mkContext "check_new_data")
                (elapse w) p size Hf Hs) as E2.
  cbn [run_task execute]. unfold bind. rewrite E1, E2.
  eexists. split; [reflexivity|]. split; reflexivity.
Qed.




End DagMore.

(* ================================================================== *)
(** ** Sample runs *)

Lemma only_archiving_moves_files_witness :
  fs (snd (dag_run bash_ok tick (dag wildcard rows_by_line accept_all cfg_demo)
             world_only_empty))
  = fs world_only_empty.
Proof.
  apply (only_archiving_moves_files wildcard rows_by_line accept_all bash_ok
           cfg_demo tick world_only_empty).
  - reflexivity.
  - reflexivity.
  - intros [H|H]; vm_compute in H; discriminate.
Defined.

Lemma raw_table_is_append_only_witness :
  (exists extra,
      raw_rows cfg_demo
        (snd (dag_run bash_ok tick (dag wildcard rows_by_line accept_all cfg_demo)
                world_intake))
      = raw_rows cfg_demo world_intake ++ extra)
  /\ (~ ran (fst (dag_run bash_ok tick
                    (dag wildcard rows_by_line accept_all cfg_demo) world_intake))
            "load_raw_data_to_mysql" ->
      raw_rows cfg_demo
        (snd (dag_run bash_ok tick (dag wildcard rows_by_line accept_all cfg_demo)
                world_intake))
      = raw_rows cfg_demo world_intake).
Proof.
  apply (raw_table_is_append_only wildcard rows_by_line accept_all bash_ok
           cfg_demo tick world_intake).
  - reflexivity.
  - reflexivity.
Defined.

Lemma load_task_appends_at_most_once_witness :
  (success = failed
   /\ raw_rows dbt_config world_load_done = raw_rows dbt_config (world_loading 3))
  \/ (success = success
      /\ exists df,
           raw_rows dbt_config world_load_done
           = raw_rows dbt_config (world_loading 3) ++ df
           /\ xcom_get (xcom world_load_done) "load_raw_data_to_mysql" "return_value"
              = XInt (List.length df)).
Proof.
  apply (load_task_appends_at_most_once rows_by_line accept_all bash_ok dbt_config
           tick 1 "load_raw_data_to_mysql" (world_loading 3) world_load_done success).
  - reflexivity.
  - vm_compute. reflexivity.
Defined.

Lemma check_task_picks_up_late_file_witness :
  exists w',
    run_task bash_ok late_arrival 1 "check_new_data"
             (PythonOperator (check_for_new_csv wildcard cfg_demo)) world_only_empty
    = (success, w')
    /\ xcom_pull "check_new_data" "csv_file_path" w'
       = (Ok (XStr "/data/in/routes_late.csv"), w')
    /\ fs w' = fs (late_arrival world_only_empty).
Proof.
  apply (check_task_picks_up_late_file wildcard bash_ok cfg_demo late_arrival
           world_only_empty "/data/in/routes_late.csv" 8).
  - right. exists ("/data/in/routes_e.csv" : str). split; reflexivity.
  - vm_compute. reflexivity.
  - reflexivity.
Defined.

